(** * PiePay offer service

    A shallow embedding of [controllers/offerController.js] (the offer
    normalizer, the dedup-on-insert store access and the highest-discount
    query) together with the Mongoose schema of [models/Offer.js], and the
    properties of the specification that were checked against it.

    Modelling conventions.
    - A JavaScript string is a Rocq [string] holding its UTF-8 bytes.  The
      only pattern the code matches is pure ASCII, and every byte of a
      multi-byte UTF-8 sequence is [>= 0x80], so matching on bytes and on
      UTF-16 code units agree.
    - A JavaScript number is a [jsnum]: [NaN], an infinity, or a finite
      number held as the rational it is equal to.  What [parseInt] and
      [Number] read and what [*] and [/] compute is rounded to the nearest
      binary64 number, ties to even, and overflows to an infinity
      ([Double.round]).  Negative zero is not told from zero: the handlers
      compare it, take its maximum with 0 and print it as zero.  The
      amounts of the vendor payload are integers of minor units.
    - The vendor payload is a tree of records whose fields are [option]s
      wherever the code tests for absence ([||], [&&], [?.]).
    - An exception is a value of [exn]; the handlers run in a small state and
      error monad over the contents of the Offer collection and a log of the
      storage calls that were made.  The storage layer is a parameter of
      the handlers ([Storage.t]): it serves a call or rejects it, and
      [Storage.reliable] serves them all. *)

From Stdlib Require Import ZArith QArith Lia Lqa Ascii String Bool List.
From stdpp Require Import strings gmap list.
Import ListNotations.

Local Open Scope string_scope.
Local Open Scope list_scope.
Local Open Scope Z_scope.

(** ** JavaScript numbers *)

(** The values a JavaScript number takes in this program.  [Fin q] is a
    finite number, held exactly. *)
Inductive jsnum : Type :=
  | NaN
  | NegInf
  | Fin (q : Q)
  | PosInf.

(** Rounding to binary64: 53 bits of significand, exponents of the unit in
    the last place from -1074 to 971. *)
Module Double.

(** The integer nearest to [N / D], for [D > 0]; a tie goes to the even
    one. *)
Definition nearestEven (N D : Z) : Z :=
  let q := N / D in
  let r := N mod D in
  if 2 * r <? D then q
  else if D <? 2 * r then q + 1
  else if Z.even q then q else q + 1.

(** The integer part of the binary logarithm of [n / d], for [n, d > 0]. *)
Definition floorLog2 (n d : Z) : Z :=
  let k := Z.log2 n - Z.log2 d in
  if (if 0 <=? k then d * 2 ^ k <=? n else d <=? n * 2 ^ (- k)) then k else k - 1.

(** The exponent of the unit in the last place of the binary64 numbers
    around [n / d]; -1074 for the subnormal ones. *)
Definition ulpExponent (n d : Z) : Z := Z.max (floorLog2 n d - 52) (-1074).

(** [n / d] rounded, for [n, d > 0]. *)
Definition roundPositive (n d : Z) : jsnum :=
  let e := ulpExponent n d in
  let m := if 0 <=? e then nearestEven n (d * 2 ^ e) else nearestEven (n * 2 ^ (- e)) d in
  if (971 <? e) || ((e =? 971) && (2 ^ 53 <=? m)) then PosInf
  else Fin (Qred (if 0 <=? e then inject_Z (m * 2 ^ e)
                  else Qmake m (Z.to_pos (2 ^ (- e))))).

(** The binary64 number nearest to [x], from the lowest terms of [x]. *)
Definition round (x : Q) : jsnum :=
  let d := Zpos (Qden (Qred x)) in
  match Qnum (Qred x) with
  | Z0 => Fin 0
  | Zpos n => roundPositive (Zpos n) d
  | Zneg n =>
      match roundPositive (Zpos n) d with
      | Fin q => Fin (- q)
      | _ => NegInf
      end
  end.

(** [x] is a binary64 number. *)
Definition representable (x : Q) : Prop := exists y, round x = Fin y /\ (y == x)%Q.

End Double.

(** ** 1. The summary parser: [/(\d+)% off/] and [parseInt] *)

Module Regex.

(** [\d]: exactly the ASCII digits. *)
Definition isDigit (c : ascii) : bool :=
  let n := N_of_ascii c in ((48 <=? n) && (n <=? 57))%N.

Definition digitValue (c : ascii) : Z := Z.of_N (N_of_ascii c) - 48.

(** The literal tail of the pattern. *)
Definition pctOff : string := "% off".

(** [(\d+)% off] anchored at the head of [s], returning capture group 1.
    The quantifier is greedy: one more digit is tried first, and only when
    the rest of the pattern fails after it does the matcher back off and
    look for the literal ["% off"] here. *)
Fixpoint digitsThenPctOff (s : string) : option string :=
  match s with
  | String c s' =>
      if isDigit c then
        match digitsThenPctOff s' with
        | Some cap => Some (String c cap)
        | None => if String.prefix pctOff s' then Some (String c "") else None
        end
      else None
  | EmptyString => None
  end.

(** [summary.match(/(\d+)% off/)] without the [g] flag: the start positions
    are tried left to right and the first that matches wins.  The result is
    capture group 1 of that match, [None] standing for [null]. *)
Fixpoint matchPercentage (s : string) : option string :=
  match digitsThenPctOff s with
  | Some cap => Some cap
  | None =>
      match s with
      | String _ s' => matchPercentage s'
      | EmptyString => None
      end
  end.

(** The integer that the longest digit prefix of [s] denotes, read left to
    right; [acc] is the value read so far. *)
Fixpoint parseIntFrom (acc : Z) (s : string) : Z :=
  match s with
  | String c s' => if isDigit c then parseIntFrom (acc * 10 + digitValue c) s' else acc
  | EmptyString => acc
  end.

(** [parseInt(s, 10)] on a string without leading white space or sign, as
    a capture of [\d+] is: the number value of the integer its digit prefix
    denotes, rounded as every number value is, and [NaN] when it starts
    with no digit. *)
Definition parseInt10 (s : string) : jsnum :=
  match s with
  | String c _ =>
      if isDigit c then Double.round (inject_Z (parseIntFrom 0 s)) else NaN
  | EmptyString => NaN
  end.

End Regex.

(** [parseSummaryForPercentage]: 0 unless the pattern matches. *)
Definition parseSummaryForPercentage (summary : string) : jsnum :=
  match Regex.matchPercentage summary with
  | Some cap => Regex.parseInt10 cap
  | None => Fin 0
  end.

(** *** The wording of the specification, for comparison *)

Module PatternSpec.

Fixpoint allDigits (ds : string) : Prop :=
  match ds with
  | String c ds' => Regex.isDigit c = true /\ allDigits ds'
  | EmptyString => True
  end.

(** The integer a decimal numeral denotes: each digit weighs ten to the
    number of digits after it. *)
Fixpoint decimalValue (ds : string) : Z :=
  match ds with
  | String c ds' => Regex.digitValue c * 10 ^ Z.of_nat (String.length ds') + decimalValue ds'
  | EmptyString => 0
  end.

(** [s] reads [pre], then an occurrence of [<integer>% off] whose integer
    is [ds], then [post]. *)
Definition Occurs (s pre ds post : string) : Prop :=
  s = pre +:+ ds +:+ Regex.pctOff +:+ post /\ ds <> "" /\ allDigits ds.

(** No occurrence starts further left. *)
Definition FirstOccurrence (s pre ds post : string) : Prop :=
  Occurs s pre ds post /\
  forall pre' ds' post', Occurs s pre' ds' post' ->
                         (String.length pre <= String.length pre')%nat.

Definition NoOccurrence (s : string) : Prop :=
  forall pre ds post, ~ Occurs s pre ds post.

End PatternSpec.

(** ** 2. Arithmetic and [Number(...)] *)

Module JsNum.

Definition Qltb (a b : Q) : bool := negb (Qle_bool b a).

Definition isNaN (a : jsnum) : bool :=
  match a with NaN => true | _ => false end.

(** Sign of a number that is not [NaN]. *)
Definition sgn (a : jsnum) : Z :=
  match a with
  | NaN => 0
  | NegInf => -1
  | Fin q => Z.sgn (Qnum q)
  | PosInf => 1
  end.

Definition ofSign (z : Z) : jsnum :=
  match z with
  | Z0 => NaN
  | Zpos _ => PosInf
  | Zneg _ => NegInf
  end.

(** [a * b] *)
Definition mul (a b : jsnum) : jsnum :=
  match a, b with
  | NaN, _ | _, NaN => NaN
  | Fin x, Fin y => Double.round (x * y)
  | _, _ => ofSign (sgn a * sgn b)
  end.

(** [a / b] (a zero divisor is taken as [+0]) *)
Definition div (a b : jsnum) : jsnum :=
  match a, b with
  | NaN, _ | _, NaN => NaN
  | Fin x, Fin y => if Qeq_bool y 0 then ofSign (sgn a) else Double.round (x / y)
  | Fin _, _ => Fin 0
  | _, Fin y => ofSign (sgn a * (if Qeq_bool y 0 then 1 else sgn b))
  | _, _ => NaN
  end.

(** [a <= b]; any comparison with [NaN] is false. *)
Definition leb (a b : jsnum) : bool :=
  match a, b with
  | NaN, _ | _, NaN => false
  | NegInf, _ | _, PosInf => true
  | Fin x, Fin y => Qle_bool x y
  | _, _ => false
  end.

(** [a < b] *)
Definition ltb (a b : jsnum) : bool :=
  match a, b with
  | NaN, _ | _, NaN => false
  | Fin x, Fin y => Qltb x y
  | PosInf, _ | _, NegInf => false
  | _, _ => true
  end.

(** [Math.max(a, b)] *)
Definition max (a b : jsnum) : jsnum :=
  match a, b with
  | NaN, _ | _, NaN => NaN
  | _, _ => if leb a b then b else a
  end.

(** *** [Number(string)]: the StringToNumber conversion *)

(** Leading white space (the WhiteSpace and LineTerminator code points, in
    their UTF-8 encoding) is dropped. *)
Fixpoint dropWs (s : string) : string :=
  match s with
  | String c s1 =>
      match N_of_ascii c with
      | 9 | 10 | 11 | 12 | 13 | 32 => dropWs s1
      | 194 (* C2 A0: U+00A0 *) =>
          match s1 with
          | String d s2 => if (N_of_ascii d =? 160)%N then dropWs s2 else s
          | _ => s
          end
      | 225 | 226 | 227 | 239 =>
          match s1 with
          | String d (String e s3) =>
              let isWs :=
                match N_of_ascii c, N_of_ascii d with
                | 225, 154 => (N_of_ascii e =? 128)      (* U+1680 *)
                | 226, 128 => (N_of_ascii e <=? 138)     (* U+2000 .. U+200A *)
                              || (N_of_ascii e =? 168)   (* U+2028 *)
                              || (N_of_ascii e =? 169)   (* U+2029 *)
                              || (N_of_ascii e =? 175)   (* U+202F *)
                | 226, 129 => (N_of_ascii e =? 159)      (* U+205F *)
                | 227, 128 => (N_of_ascii e =? 128)      (* U+3000 *)
                | 239, 187 => (N_of_ascii e =? 191)      (* U+FEFF *)
                | _, _ => false
                end%N in
              if isWs then dropWs s3 else s
          | _ => s
          end
      | _ => s
      end%N
  | EmptyString => s
  end.

(** Trailing white space: the longest suffix made of white space only. *)
Fixpoint trimEnd (s : string) : string :=
  match s with
  | String c s' => if String.eqb (dropWs s) "" then "" else String c (trimEnd s')
  | EmptyString => ""
  end.

Definition trim (s : string) : string := trimEnd (dropWs s).

(** The longest prefix of decimal digits, and what follows it. *)
Fixpoint spanDigits (s : string) : string * string :=
  match s with
  | String c s' =>
      if Regex.isDigit c
      then let '(ds, r) := spanDigits s' in (String c ds, r)
      else ("", s)
  | EmptyString => ("", "")
  end.

(** [m * 10 ^ e] *)
Definition scale10 (m e : Z) : Q :=
  if 0 <=? e then inject_Z (m * 10 ^ e) else Qmake m (Z.to_pos (10 ^ (- e))).

(** ExponentPart, which must reach the end of the literal; [Some 0] when
    there is none. *)
Definition exponentPart (s : string) : option Z :=
  match s with
  | EmptyString => Some 0
  | String c s1 =>
      if orb (Ascii.eqb c "e") (Ascii.eqb c "E") then
        let '(neg, s2) :=
          match s1 with
          | String "-" t => (true, t)
          | String "+" t => (false, t)
          | _ => (false, s1)
          end in
        match spanDigits s2 with
        | (String d ds, EmptyString) =>
            let e := Regex.parseIntFrom 0 (String d ds) in
            Some (if neg then - e else e)
        | _ => None
        end
      else None
  end.

(** The number value of [m * 10 ^ e], for [0 <= m < 10 ^ digits].  Beyond
    [10 ^ 400] it is infinite and below [10 ^ (-400)] it is 0, which spares
    the power of ten. *)
Definition decimalValue (m e : Z) (digits : nat) : jsnum :=
  if m =? 0 then Fin 0
  else if 400 <? e then PosInf
  else if e <? - 400 - Z.of_nat digits then Fin 0
  else Double.round (scale10 m e).

(** The number of opposite sign. *)
Definition opp (a : jsnum) : jsnum :=
  match a with
  | NaN => NaN
  | NegInf => PosInf
  | Fin q => Fin (- q)
  | PosInf => NegInf
  end.

(** StrUnsignedDecimalLiteral, apart from [Infinity]; [None] when [s] is
    not one. *)
Definition unsignedDecimal (s : string) : option jsnum :=
  let '(ip, r1) := spanDigits s in
  let '(fp, r2, dot) :=
    match r1 with
    | String "." t => let '(fp, r2) := spanDigits t in (fp, r2, true)
    | _ => ("", r1, false)
    end in
  if String.eqb (ip +:+ fp) "" then None
  else
    match exponentPart r2 with
    | Some e =>
        Some (decimalValue (Regex.parseIntFrom 0 (ip +:+ fp))
                           (e - Z.of_nat (String.length fp))
                           (String.length (ip +:+ fp)))
    | None => None
    end.

(** A digit of a binary, octal or hexadecimal literal. *)
Definition radixDigit (radix : Z) (c : ascii) : option Z :=
  let n := Z.of_N (N_of_ascii c) in
  let v := (if (48 <=? n) && (n <=? 57) then Some (n - 48)
            else if (97 <=? n) && (n <=? 102) then Some (n - 87)
            else if (65 <=? n) && (n <=? 70) then Some (n - 55)
            else None)%Z in
  match v with
  | Some d => if (d <? radix)%Z then Some d else None
  | None => None
  end.

Fixpoint radixDigits (radix acc : Z) (s : string) : option Z :=
  match s with
  | String c s' =>
      match radixDigit radix c with
      | Some d => radixDigits radix (acc * radix + d) s'
      | None => None
      end
  | EmptyString => Some acc
  end.

(** NonDecimalIntegerLiteral: [0x], [0o], [0b] and at least one digit. *)
Definition nonDecimal (s : string) : option Z :=
  match s with
  | String "0" (String p (String c r)) =>
      let digits := String c r in
      if orb (Ascii.eqb p "x") (Ascii.eqb p "X") then radixDigits 16 0 digits
      else if orb (Ascii.eqb p "o") (Ascii.eqb p "O") then radixDigits 8 0 digits
      else if orb (Ascii.eqb p "b") (Ascii.eqb p "B") then radixDigits 2 0 digits
      else None
  | _ => None
  end.

Definition StringToNumber (s : string) : jsnum :=
  let t := trim s in
  if String.eqb t "" then Fin 0
  else
    match nonDecimal t with
    | Some z => Double.round (inject_Z z)
    | None =>
        let '(neg, u) :=
          match t with
          | String "-" u => (true, u)
          | String "+" u => (false, u)
          | _ => (false, t)
          end in
        if String.eqb u "Infinity" then (if neg then NegInf else PosInf)
        else
          match unsignedDecimal u with
          | Some a => if neg then opp a else a
          | None => NaN
          end
    end.

End JsNum.

(** [Number(v)] for a query-string parameter [v]: a string, or [undefined]
    when the parameter is absent. *)
Definition Number (v : option string) : jsnum :=
  match v with
  | Some s => JsNum.StringToNumber s
  | None => NaN
  end.

(** Truthiness of a value that is a string or [undefined]. *)
Definition truthy (v : option string) : bool :=
  match v with
  | Some s => negb (String.eqb s "")
  | None => false
  end.

(** ** 3. The vendor payload *)

Module TxnLimits.

(** [offer_txn_limits]: amounts in minor currency units. *)
Record t := mk {
  min_txn_value : option Z;
  max_discount_per_txn : option Z
}.

End TxnLimits.

Module OfferDetails.

Record t := mk {
  adjustment_id : option string;
  title : option string;
  summary : option string;
  adjustment_type : option string;
  adjustment_sub_type : option string;
  offer_txn_limits : option TxnLimits.t
}.

End OfferDetails.

Module Adjustment.

(** One entry of [adjustment_list]. *)
Record t := mk { offer_details : option OfferDetails.t }.

End Adjustment.

Module Contributors.

Record t := mk {
  payment_instrument : option (list string);
  banks : option (list string)
}.

End Contributors.

Module SectionOffer.

(** One entry of a section's [offers]. *)
Record t := mk {
  adjustment_id : option string;
  contributors : option Contributors.t
}.

End SectionOffer.

Module OfferSection.

(** [offers] is [Some] exactly when the field holds an array. *)
Record t := mk { offers : option (list SectionOffer.t) }.

End OfferSection.

Module Adjustments.

Record t := mk { adjustment_list : option (list Adjustment.t) }.

End Adjustments.

Module PaymentOption.

(** One entry of [options]. *)
Record t := mk { adjustments : option Adjustments.t }.

End PaymentOption.

Module ApiData.

(** The content root.  [offer_sections] lists the values of the object in
    the order [for ... in] visits its keys; a [None] entry is a [null]
    section. *)
Record t := mk {
  offer_sections : option (list (option OfferSection.t));
  adjustment_list : option (list Adjustment.t);
  options : option (list PaymentOption.t)
}.

End ApiData.

Module ApiResponse.

(** [flipkartOfferApiResponse]: its own fields are [direct]; [RESPONSE]
    is the envelope field. *)
Record t := mk {
  RESPONSE : option ApiData.t;
  direct : ApiData.t
}.

End ApiResponse.

(** ** 4. The Offer model ([models/Offer.js]) *)

Module PaymentInstrument.

Record t := mk {
  paymentInstrument : string;
  banks : list string
}.

End PaymentInstrument.

Module Offer.

(** The object the normalizer builds and, once it passed validation, the
    stored document.  [title] and [type] copy vendor fields that may be
    [undefined]. *)
Record t := mk {
  adjustmentId : string;
  title : option string;
  description : string;
  type : option string;
  paymentInstruments : list PaymentInstrument.t;
  minTrxnValue : jsnum;
  maxDiscount : jsnum;
  discountPercentage : jsnum
}.

(** [required: true] on a [String] path: present and not empty. *)
Definition required (v : option string) : bool := truthy v.

(** The schema's validators: [adjustmentId], [title], [description] and
    [type] are required.  The three [Number] paths take any number but
    [NaN], which no candidate holds (see [candidate_numbers]). *)
Definition validate (o : t) : bool :=
  required (Some (adjustmentId o)) && required (title o)
  && required (Some (description o)) && required (type o).

End Offer.

(** ** 5. Exceptions, the collection and the handler monad *)

Inductive exn : Type :=
  | TypeError (reading : string)      (* a property read on [undefined] *)
  | ValidationError (adjustmentId : string)
  | DuplicateKey (adjustmentId : string)    (* E11000 on the unique index *)
  | StorageError (message : string).        (* the storage layer rejected a call *)

Inductive result (A : Type) : Type :=
  | Ok (a : A)
  | Throw (e : exn).
Arguments Ok {A} a.
Arguments Throw {A} e.

Module Result.

Definition bind {A B} (r : result A) (k : A -> result B) : result B :=
  match r with
  | Ok a => k a
  | Throw e => Throw e
  end.

(** [xs.map(f)] where [f] may throw: the first exception ends the loop. *)
Fixpoint mapM {A B} (f : A -> result B) (xs : list A) : result (list B) :=
  match xs with
  | [] => Ok []
  | x :: xs' => bind (f x) (fun y => bind (mapM f xs') (fun ys => Ok (y :: ys)))
  end.

End Result.

(** A call made to the storage layer. *)
Inductive StoreOp : Type :=
  | OpFindByIds (ids : list string)
  | OpInsertMany (docs : list Offer.t)
  | OpFindQuery (bankName : string) (amount : jsnum) (instrument : option string).

(** The Offer collection, under its unique index on [adjustmentId], and the
    storage calls made so far. *)
Record world := mkWorld {
  collection : list Offer.t;
  calls : list StoreOp
}.

Definition M (A : Type) : Type := world -> result A * world.

(** How the storage layer answers the calls it receives: [None] when it
    serves the call, [Some fault] when the call is rejected with an error
    (no connection, a timeout).  An insert that is rejected may have
    written the first [written] documents of the batch before. *)
Module Storage.

Record fault : Type := mkFault {
  message : string;
  written : nat
}.

Definition t : Type := StoreOp -> option fault.

(** Every call is served. *)
Definition reliable : t := fun _ => None.

End Storage.

Module Handler.

Definition ret {A} (a : A) : M A := fun w => (Ok a, w).

Definition bind {A B} (m : M A) (k : A -> M B) : M B :=
  fun w => match m w with
           | (Ok a, w') => k a w'
           | (Throw e, w') => (Throw e, w')
           end.

Definition lift {A} (r : result A) : M A := fun w => (r, w).

(** [try { m } catch (error) { h error }] *)
Definition tryCatch {A} (m : M A) (h : exn -> M A) : M A :=
  fun w => match m w with
           | (Ok a, w') => (Ok a, w')
           | (Throw e, w') => h e w'
           end.

End Handler.

Declare Scope handler_scope.
Delimit Scope handler_scope with handler.
Notation "x <- m ;; k" := (Handler.bind m (fun x => k))
  (at level 100, m at next level, right associativity) : handler_scope.
Notation "m ;;; k" := (Handler.bind m (fun _ => k))
  (at level 100, right associativity) : handler_scope.

(** ** 6. The storage layer: the Mongoose model [Offer] *)

Module Store.

Definition ids (coll : list Offer.t) : list string := map Offer.adjustmentId coll.

(** An ordered bulk insert: the documents go in one by one, and the first
    that collides with the unique index on [adjustmentId] ends the
    operation with a duplicate-key error; those before it stay inserted. *)
Fixpoint insertOrdered (coll docs : list Offer.t) : result unit * list Offer.t :=
  match docs with
  | [] => (Ok tt, coll)
  | d :: ds =>
      if bool_decide (Offer.adjustmentId d ∈ ids coll)
      then (Throw (DuplicateKey (Offer.adjustmentId d)), coll)
      else insertOrdered (coll ++ [d]) ds
  end.

(** [Offer.insertMany(docs)] with the default [ordered: true]: every
    document is validated against the schema first, and nothing is sent to
    the database when one fails. *)
Definition insertMany (storage : Storage.t) (docs : list Offer.t) : M unit :=
  fun w =>
    let w1 := mkWorld (collection w) (calls w ++ [OpInsertMany docs]) in
    match List.find (fun d => negb (Offer.validate d)) docs with
    | Some bad => (Throw (ValidationError (Offer.adjustmentId bad)), w1)
    | None =>
        match storage (OpInsertMany docs) with
        | Some fault =>
            let '(r, coll) := insertOrdered (collection w1)
                                (take (Storage.written fault) docs) in
            (Result.bind r (fun _ => Throw (StorageError (Storage.message fault))),
             mkWorld coll (calls w1))
        | None =>
            let '(r, coll) := insertOrdered (collection w1) docs in
            (r, mkWorld coll (calls w1))
        end
    end.

(** [Offer.find({ adjustmentId: { $in: adjustmentIds } })] *)
Definition findByIds (storage : Storage.t) (adjustmentIds : list string)
    : M (list Offer.t) :=
  fun w =>
    (match storage (OpFindByIds adjustmentIds) with
     | Some fault => Throw (StorageError (Storage.message fault))
     | None =>
         Ok (List.filter (fun o => bool_decide (Offer.adjustmentId o ∈ adjustmentIds))
                         (collection w))
     end,
     mkWorld (collection w) (calls w ++ [OpFindByIds adjustmentIds])).

(** The filter [{ 'paymentInstruments.banks': bankName,
    'minTrxnValue': { $lte: amount },
    'paymentInstruments.paymentInstrument': instrument }], the last key
    being there only when [instrument] is. A dotted path through an array
    matches when some element matches. *)
Definition matches (bankName : string) (amount : jsnum) (instrument : option string)
    (o : Offer.t) : bool :=
  existsb (fun pi => bool_decide (bankName ∈ PaymentInstrument.banks pi))
          (Offer.paymentInstruments o)
  && JsNum.leb (Offer.minTrxnValue o) amount
  && match instrument with
     | Some i =>
         existsb (fun pi => String.eqb (PaymentInstrument.paymentInstrument pi) i)
                 (Offer.paymentInstruments o)
     | None => true
     end.

(** [Offer.find(query)] *)
Definition findQuery (storage : Storage.t) (bankName : string) (amount : jsnum)
    (instrument : option string) : M (list Offer.t) :=
  fun w =>
    (match storage (OpFindQuery bankName amount instrument) with
     | Some fault => Throw (StorageError (Storage.message fault))
     | None => Ok (List.filter (matches bankName amount instrument) (collection w))
     end,
     mkWorld (collection w) (calls w ++ [OpFindQuery bankName amount instrument])).

(** Writes of other requests that commit while this one is suspended: each
    document goes in unless its [adjustmentId] is taken. *)
Definition commitOthers (others : list Offer.t) : M unit :=
  fun w =>
    (Ok tt,
     mkWorld (fold_left (fun coll d =>
                           if bool_decide (Offer.adjustmentId d ∈ ids coll)
                           then coll else coll ++ [d])
                        others (collection w))
             (calls w)).

End Store.

(** ** 7. [createOffers] *)

Definition EMI_FULL_INTEREST_WAIVER : string := "EMI_FULL_INTEREST_WAIVER".

Module Normalizer.

(** [flipkartOfferApiResponse.RESPONSE || flipkartOfferApiResponse] *)
Definition apiData (r : ApiResponse.t) : ApiData.t :=
  match ApiResponse.RESPONSE r with
  | Some d => d
  | None => ApiResponse.direct r
  end.

(** The body of the inner loop: [contributorsMap.set] when both
    [offer.adjustment_id] and [offer.contributors] are truthy. *)
Definition addOffer (m : gmap string Contributors.t) (offer : SectionOffer.t)
    : gmap string Contributors.t :=
  match SectionOffer.adjustment_id offer, SectionOffer.contributors offer with
  | Some id, Some c => if truthy (Some id) then <[id := c]> m else m
  | _, _ => m
  end.

(** The body of the outer loop: only a section with an [offers] array
    contributes. *)
Definition addSection (m : gmap string Contributors.t) (section : option OfferSection.t)
    : gmap string Contributors.t :=
  match section with
  | Some sec =>
      match OfferSection.offers sec with
      | Some os => fold_left addOffer os m
      | None => m
      end
  | None => m
  end.

Definition contributorsMap (d : ApiData.t) : gmap string Contributors.t :=
  fold_left addSection (default [] (ApiData.offer_sections d)) ∅.

(** [apiData.adjustment_list ||
     apiData.options?.[0]?.adjustments?.adjustment_list || []]
    (an array, even an empty one, is truthy). *)
Definition adjustmentList (d : ApiData.t) : list Adjustment.t :=
  match ApiData.adjustment_list d with
  | Some l => l
  | None =>
      match ApiData.options d with
      | Some (o :: _) =>
          match PaymentOption.adjustments o with
          | Some a => default [] (Adjustments.adjustment_list a)
          | None => []
          end
      | _ => []
      end
  end.

(** The first [.filter]: offer details present and the sub-type is not the
    full-interest-waiver one. *)
Definition applicable (adj : Adjustment.t) : bool :=
  match Adjustment.offer_details adj with
  | Some details =>
      negb (bool_decide (OfferDetails.adjustment_sub_type details
                         = Some EMI_FULL_INTEREST_WAIVER))
  | None => false
  end.

(** [(v || 0) / 100]: minor to major units. *)
Definition toMajorUnits (v : option Z) : jsnum :=
  JsNum.div (Fin (inject_Z (default 0%Z v))) (Fin 100).

(** [contributors.payment_instrument.map(instrument => ({ ... }))] *)
Definition expandInstruments (contributors : Contributors.t)
    : result (list PaymentInstrument.t) :=
  match Contributors.payment_instrument contributors with
  | Some instruments =>
      Ok (map (fun instrument =>
                 PaymentInstrument.mk instrument
                   (default [] (Contributors.banks contributors)))
              instruments)
  | None => Throw (TypeError "map")
  end.

(** The callback of [.map]: [Ok None] is the [null] of an adjustment
    without contributors.  Reading a property of [undefined] throws. *)
Definition toOffer (m : gmap string Contributors.t) (adj : Adjustment.t)
    : result (option Offer.t) :=
  match Adjustment.offer_details adj with
  | None => Throw (TypeError "adjustment_id")
  | Some details =>
      match OfferDetails.adjustment_id details with
      | None => Ok None            (* [contributorsMap.get(undefined)] *)
      | Some adjustment_id =>
          match m !! adjustment_id with
          | None => Ok None
          | Some contributors =>
              match OfferDetails.summary details with
              | None => Throw (TypeError "match")
              | Some summary =>
                  let discountPercentage := parseSummaryForPercentage summary in
                  let limits := OfferDetails.offer_txn_limits details in
                  let minTrxnValue := toMajorUnits (limits ≫= TxnLimits.min_txn_value) in
                  let maxDiscount := toMajorUnits (limits ≫= TxnLimits.max_discount_per_txn) in
                  Result.bind (expandInstruments contributors) (fun paymentInstruments =>
                  Ok (Some (Offer.mk adjustment_id
                              (OfferDetails.title details)
                              summary
                              (OfferDetails.adjustment_type details)
                              paymentInstruments
                              minTrxnValue
                              maxDiscount
                              discountPercentage)))
              end
          end
      end
  end.

(** The chain [adjustmentList.filter(...).map(...).filter(offer => offer
    !== null)]. *)
Definition process (m : gmap string Contributors.t) (adjustmentList : list Adjustment.t)
    : result (list Offer.t) :=
  Result.bind
    (Result.mapM (toOffer m) (List.filter applicable adjustmentList))
    (fun mapped => Ok (omap id mapped)).

(** [offersToProcess] *)
Definition offersToProcess (d : ApiData.t) : result (list Offer.t) :=
  process (contributorsMap d) (adjustmentList d).

End Normalizer.

Inductive IngestBody : Type :=
  | Counts (noOfOffersIdentified noOfNewOffersCreated : nat)
  | Message (message : string)
  | Failure (message : string) (error : exn).

Record Response (B : Type) : Type := respond { status : nat; json : B }.
Arguments respond {B} status json.
Arguments status {B} r.
Arguments json {B} r.

Record IngestRequest := mkIngest { flipkartOfferApiResponse : option ApiResponse.t }.

Local Open Scope handler_scope.

(** The handler of [POST /offer] over a storage layer.  [others] are the
    documents other requests commit between this call's existence check
    and its insert (the only window in which they can change its outcome);
    a call that runs alone has [others = []]. *)
Definition createOffers (storage : Storage.t) (req : IngestRequest) (others : list Offer.t)
    : M (Response IngestBody) :=
  Handler.tryCatch
    (match flipkartOfferApiResponse req with
     | None =>
         Handler.ret (respond 400 (Message "Missing flipkartOfferApiResponse in request body"))
     | Some response =>
         offersToProcess <- Handler.lift (Normalizer.offersToProcess (Normalizer.apiData response)) ;;
         let noOfOffersIdentified := length offersToProcess in
         if (noOfOffersIdentified =? 0)%nat then
           Handler.ret (respond 200 (Counts 0 0))
         else
           let adjustmentIds := map Offer.adjustmentId offersToProcess in
           existingOffers <- Store.findByIds storage adjustmentIds ;;
           Store.commitOthers others ;;;
           let existingIds : gset string := list_to_set (map Offer.adjustmentId existingOffers) in
           let newOffersToCreate :=
             List.filter (fun o => negb (bool_decide (Offer.adjustmentId o ∈ existingIds)))
                         offersToProcess in
           (if (0 <? length newOffersToCreate)%nat
            then Store.insertMany storage newOffersToCreate
            else Handler.ret tt) ;;;
           Handler.ret (respond 201 (Counts noOfOffersIdentified (length newOffersToCreate)))
     end)
    (fun error => Handler.ret (respond 500 (Failure "Error creating offers" error))).

(** ** 8. [getHighestDiscount] *)

Module Query.

Record t := mk {
  amountToPay : option string;
  bankName : option string;
  paymentInstrument : option string
}.

End Query.

Inductive QueryBody : Type :=
  | HighestDiscountAmount (highestDiscountAmount : jsnum)
  | QueryMessage (message : string)
  | QueryFailure (message : string) (error : exn).

(** The body of the [reduce] callback before [Math.max]: what one offer is
    worth for the amount. *)
Definition currentDiscount (numericAmountToPay : jsnum) (offer : Offer.t) : jsnum :=
  if JsNum.ltb (Fin 0) (Offer.discountPercentage offer) then
    let current :=
      JsNum.div (JsNum.mul numericAmountToPay (Offer.discountPercentage offer))
                (Fin 100) in
    if JsNum.ltb (Fin 0) (Offer.maxDiscount offer)
       && JsNum.ltb (Offer.maxDiscount offer) current
    then Offer.maxDiscount offer
    else current
  else if JsNum.ltb (Fin 0) (Offer.maxDiscount offer) then Offer.maxDiscount offer
  else Fin 0.

(** [applicableOffers.reduce((max, offer) => Math.max(max, current), 0)] *)
Definition highestDiscountAmount (numericAmountToPay : jsnum)
    (applicableOffers : list Offer.t) : jsnum :=
  fold_left (fun maxCalculatedDiscount offer =>
               JsNum.max maxCalculatedDiscount (currentDiscount numericAmountToPay offer))
            applicableOffers (Fin 0).

Definition invalidQuery : Response QueryBody :=
  respond 400 (QueryMessage
    "Invalid query parameters. `amountToPay` and `bankName` are required.").

(** The handler of [GET /highest-discount] over a storage layer. *)
Definition getHighestDiscount (storage : Storage.t) (q : Query.t) : M (Response QueryBody) :=
  Handler.tryCatch
    (let numericAmountToPay := Number (Query.amountToPay q) in
     if JsNum.isNaN numericAmountToPay || negb (truthy (Query.bankName q)) then
       Handler.ret invalidQuery
     else
       match Query.bankName q with
       | Some bankName =>
           let instrument :=
             if truthy (Query.paymentInstrument q) then Query.paymentInstrument q else None in
           applicableOffers <- Store.findQuery storage bankName numericAmountToPay instrument ;;
           Handler.ret (respond 200 (HighestDiscountAmount
                          (highestDiscountAmount numericAmountToPay applicableOffers)))
       | None => Handler.ret invalidQuery     (* not reached: [!bankName] held *)
       end)
    (fun error => Handler.ret (respond 500 (QueryFailure "Error calculating highest discount" error))).

(** ** 9. The wording of the specification, for comparison *)

Module NormalizerSpec.

(** An adjustment that must not be persisted: it lacks offer details, or
    its sub-type is the full-interest-waiver one, or its [adjustment_id]
    has no entry in the correlation map. *)
Definition Unusable (m : gmap string Contributors.t) (adj : Adjustment.t) : Prop :=
  match Adjustment.offer_details adj with
  | None => True
  | Some details =>
      OfferDetails.adjustment_sub_type details = Some EMI_FULL_INTEREST_WAIVER
      \/ match OfferDetails.adjustment_id details with
         | Some id => m !! id = None
         | None => True
         end
  end.

(** Minor to major units, 0 for a missing field. *)
Definition majorUnits (v : option Z) : Q :=
  match v with
  | Some minor => (inject_Z minor / 100)%Q
  | None => 0%Q
  end.

End NormalizerSpec.

Module StoreSpec.

(** The candidates whose [adjustmentId] is not in the collection. *)
Definition notStored (coll offers : list Offer.t) : list Offer.t :=
  List.filter (fun o => negb (bool_decide (Offer.adjustmentId o ∈ Store.ids coll))) offers.

End StoreSpec.

Module QuerySpec.


(** Step 2: the discount an offer with this percentage and this cap
    achieves for the amount, in exact arithmetic. *)
Definition discount (amountToPay percentage cap : Q) : Q :=
  if Qlt_le_dec 0 percentage then
    let d := (amountToPay * percentage / 100)%Q in
    if Qlt_le_dec 0 cap then (if Qlt_le_dec cap d then cap else d) else d
  else if Qeq_dec percentage 0 then (if Qlt_le_dec 0 cap then cap else 0%Q)
  else 0%Q.

End QuerySpec.

(** ** 10. Sample payloads and queries *)

Module Samples.

Definition details (id : string) (summary : option string) (subType : option string)
    (limits : option TxnLimits.t) : OfferDetails.t :=
  OfferDetails.mk (Some id) (Some "Bank Offer") summary (Some "INSTANT_DISCOUNT") subType limits.

(** 5% up to 750 on a minimum of 5000, amounts in paise. *)
Definition adjIdfc : Adjustment.t :=
  Adjustment.mk (Some (details "FPO1"
    (Some "5% off up to ₹750 on IDFC FIRST Power Women Platinum and Signature Debit Cards. Min Trxn value ₹5,000")
    None (Some (TxnLimits.mk (Some 500000) (Some 75000))))).

(** No limits, no percentage in the text, no banks on the contributor. *)
Definition adjUpi : Adjustment.t :=
  Adjustment.mk (Some (details "FPO2" (Some "Flat ₹100 cashback on UPI") None None)).

Definition adjWaiver : Adjustment.t :=
  Adjustment.mk (Some (details "FPO3" (Some "No cost EMI")
                               (Some EMI_FULL_INTEREST_WAIVER) None)).

(** Its id is in no section. *)
Definition adjOrphan : Adjustment.t :=
  Adjustment.mk (Some (details "FPO4" (Some "10% off") None None)).

Definition adjNoDetails : Adjustment.t := Adjustment.mk None.

(** A usable adjustment without [summary]. *)
Definition adjNoSummary : Adjustment.t :=
  Adjustment.mk (Some (details "FPO2" None None None)).

(** A usable adjustment without [title]. *)
Definition adjNoTitle : Adjustment.t :=
  Adjustment.mk (Some (OfferDetails.mk (Some "FPO2") None (Some "Flat ₹100 cashback on UPI")
                                       (Some "INSTANT_DISCOUNT") None None)).

Definition adjHuge : Adjustment.t :=
  Adjustment.mk (Some (details "FPO5" (Some "150% off on accessories") None None)).

(** A run of 310 digits before ["% off"]. *)
Definition adjEndless : Adjustment.t :=
  Adjustment.mk (Some (details "FPO5"
    (Some "1000000000000000000000000000000000000000000000000000000000000000000000000000000000000000000000000000000000000000000000000000000000000000000000000000000000000000000000000000000000000000000000000000000000000000000000000000000000000000000000000000000000000000000000000000000000000000000000000000000000000000000000% off")
    None None)).

(** A threshold below zero: -10000 paise. *)
Definition adjNegative : Adjustment.t :=
  Adjustment.mk (Some (details "FPO1" (Some "5% off") None
                               (Some (TxnLimits.mk (Some (-10000)) None)))).

Definition section : OfferSection.t :=
  OfferSection.mk (Some
    [ SectionOffer.mk (Some "FPO1")
        (Some (Contributors.mk (Some ["CREDIT"; "DEBIT"]) (Some ["IDFC"])));
      SectionOffer.mk (Some "FPO2") (Some (Contributors.mk (Some ["UPI"]) None));
      SectionOffer.mk (Some "FPO3") (Some (Contributors.mk (Some ["EMI"]) (Some ["HDFC"])));
      SectionOffer.mk (Some "FPO5") (Some (Contributors.mk (Some ["CREDIT"]) (Some ["AXIS"]))) ]).

Definition data (adjustments : list Adjustment.t) : ApiData.t :=
  ApiData.mk (Some [Some section; None]) (Some adjustments) None.

(** The payload in its envelope. *)
Definition envelope (adjustments : list Adjustment.t) : ApiResponse.t :=
  ApiResponse.mk (Some (data adjustments)) (ApiData.mk None None None).

Definition request (adjustments : list Adjustment.t) : IngestRequest :=
  mkIngest (Some (envelope adjustments)).

Definition emptyWorld : world := mkWorld [] [].

Definition offerIdfc : Offer.t :=
  Offer.mk "FPO1" (Some "Bank Offer")
    "5% off up to ₹750 on IDFC FIRST Power Women Platinum and Signature Debit Cards. Min Trxn value ₹5,000"
    (Some "INSTANT_DISCOUNT")
    [PaymentInstrument.mk "CREDIT" ["IDFC"]; PaymentInstrument.mk "DEBIT" ["IDFC"]]
    (Fin 5000) (Fin 750) (Fin 5).

Definition offerUpi : Offer.t :=
  Offer.mk "FPO2" (Some "Bank Offer") "Flat ₹100 cashback on UPI" (Some "INSTANT_DISCOUNT")
    [PaymentInstrument.mk "UPI" []] (Fin 0) (Fin 0) (Fin 0).

Definition offerHuge : Offer.t :=
  Offer.mk "FPO5" (Some "Bank Offer") "150% off on accessories" (Some "INSTANT_DISCOUNT")
    [PaymentInstrument.mk "CREDIT" ["AXIS"]] (Fin 0) (Fin 0) (Fin 150).

(** What [adjNegative] is stored as. *)
Definition offerNegative : Offer.t :=
  Offer.mk "FPO1" (Some "Bank Offer") "5% off" (Some "INSTANT_DISCOUNT")
    [PaymentInstrument.mk "CREDIT" ["IDFC"]; PaymentInstrument.mk "DEBIT" ["IDFC"]]
    (Fin (-100)) (Fin 0) (Fin 5).


(** The copy of [FPO2] that another request stores. *)
Definition offerUpiOther : Offer.t :=
  Offer.mk "FPO2" (Some "Bank Offer") "Flat ₹100 cashback on UPI" (Some "CASHBACK")
    [PaymentInstrument.mk "UPI" []] (Fin 0) (Fin 0) (Fin 0).

End Samples.

(** ** 11. The correlation map and the candidates, in words *)

Module CorrelationSpec.

(** What one entry of a section's [offers] records: its id and its
    contributors, when both are there and the id is not empty. *)
Definition entryOf (offer : SectionOffer.t) : option (string * Contributors.t) :=
  match SectionOffer.adjustment_id offer, SectionOffer.contributors offer with
  | Some id, Some c => if String.eqb id "" then None else Some (id, c)
  | _, _ => None
  end.

(** The entries of all sections that hold an [offers] array, in the order
    the two loops visit them. *)
Definition entries (d : ApiData.t) : list (string * Contributors.t) :=
  flat_map
    (fun section =>
       match section with
       | Some sec => omap entryOf (default [] (OfferSection.offers sec))
       | None => []
       end)
    (default [] (ApiData.offer_sections d)).

(** One [contributorsMap.set] per entry. *)
Definition setEntry (m : gmap string Contributors.t) (e : string * Contributors.t)
    : gmap string Contributors.t := <[e.1 := e.2]> m.

(** The contributors of the last entry recorded under [id]. *)
Definition lastEntry (id : string) (es : list (string * Contributors.t))
    : option Contributors.t :=
  snd <$> List.find (fun e => String.eqb (fst e) id) (rev es).

(** The id under which an adjustment becomes a candidate: it has offer
    details, its sub-type is not the full-interest-waiver one, and its
    [adjustment_id] has an entry in the map. *)
Definition candidateId (m : gmap string Contributors.t) (adj : Adjustment.t)
    : option string :=
  match Adjustment.offer_details adj with
  | Some details =>
      if bool_decide (OfferDetails.adjustment_sub_type details
                      = Some EMI_FULL_INTEREST_WAIVER)
      then None
      else
        match OfferDetails.adjustment_id details with
        | Some id => match m !! id with Some _ => Some id | None => None end
        | None => None
        end
  | None => None
  end.

End CorrelationSpec.

(** ** 12. More sample data *)

Module MoreSamples.

(** Two sections record [FPO1]; a section without [offers] sits between
    them, and an entry with the empty id follows. *)
Definition twiceRecorded : ApiData.t :=
  ApiData.mk
    (Some [Some (OfferSection.mk (Some
             [SectionOffer.mk (Some "FPO1") (Some (Contributors.mk (Some ["UPI"]) None))]));
           Some (OfferSection.mk None);
           Some (OfferSection.mk (Some
             [SectionOffer.mk (Some "FPO1")
                (Some (Contributors.mk (Some ["CREDIT"]) (Some ["HDFC"])));
              SectionOffer.mk (Some "") (Some (Contributors.mk None None))]))])
    None None.

End MoreSamples.

(** * Properties *)

(** ** Strings *)

Lemma append_empty (t : string) : "" +:+ t = t.
Proof. reflexivity. Qed.

Lemma append_cons (c : ascii) (s t : string) : String c s +:+ t = String c (s +:+ t).
Proof. reflexivity. Qed.

(** [simpl] leaves [+:+] alone; this pushes it through constructors. *)
Ltac str_simpl := rewrite ?append_cons, ?append_empty; simpl.
Tactic Notation "str_simpl" "in" hyp(H) := rewrite ?append_cons, ?append_empty in H; simpl in H.

Lemma length_append (a b : string) :
  String.length (a +:+ b) = (String.length a + String.length b)%nat.
Proof. induction a as [|x a IH]; str_simpl; congruence. Qed.

Lemma prefix_append (p s : string) :
  String.prefix p s = true <-> exists post, s = p +:+ post.
Proof.
  revert s. induction p as [|c p IH]; intros s; str_simpl.
  - destruct s; split; eauto.
  - destruct s as [|d s]; simpl.
    + split; [discriminate | intros [post H]; str_simpl in H; discriminate].
    + destruct (ascii_dec c d) as [->|Hne].
      * rewrite IH. split; intros [post H]; exists post; str_simpl; str_simpl in H; congruence.
      * split; [discriminate | intros [post H]; str_simpl in H; congruence].
Qed.

(** ** Binary64 rounding *)

Section Rounding.

Lemma Qred_inject_Z (z : Z) : Qred (inject_Z z) = inject_Z z.
Proof.
  unfold Qred, inject_Z.
  pose proof (Z.ggcd_correct_divisors z 1) as Hd.
  pose proof (Z.ggcd_gcd z 1) as Hg.
  destruct (Z.ggcd z 1) as [g [aa bb]]. cbn [fst snd] in *.
  rewrite Z.gcd_1_r in Hg. subst g. destruct Hd as [-> Hb].
  assert (bb = 1) as -> by lia. rewrite Z.mul_1_l. reflexivity.
Qed.


Lemma roundPositive_not_NaN (n d : Z) : Double.roundPositive n d <> NaN.
Proof. unfold Double.roundPositive. now destruct (_ || _). Qed.

Lemma round_not_NaN (x : Q) : Double.round x <> NaN.
Proof.
  unfold Double.round. destruct (Qnum (Qred x)) as [|n|n]; [discriminate | |].
  - apply roundPositive_not_NaN.
  - pose proof (roundPositive_not_NaN (Z.pos n) (Z.pos (Qden (Qred x)))).
    now destruct (Double.roundPositive _ _).
Qed.

Lemma nearestEven_1 (N : Z) : Double.nearestEven N 1 = N.
Proof.
  unfold Double.nearestEven. rewrite Z.div_1_r, Z.mod_1_r. reflexivity.
Qed.

Lemma nearestEven_nonneg (N D : Z) : 0 <= N -> 0 < D -> 0 <= Double.nearestEven N D.
Proof.
  intros HN HD. unfold Double.nearestEven.
  assert (0 <= N / D) by (apply Z.div_pos; lia).
  destruct (2 * (N mod D) <? D); [assumption |].
  destruct (D <? 2 * (N mod D)); [lia |].
  destruct (Z.even (N / D)); lia.
Qed.

Lemma floorLog2_integer (z : Z) : 0 < z -> Double.floorLog2 z 1 = Z.log2 z.
Proof.
  intros Hz. unfold Double.floorLog2. change (Z.log2 1) with 0. rewrite Z.sub_0_r.
  pose proof (Z.log2_nonneg z) as Hk. pose proof (Z.log2_spec z Hz) as [Hlow _].
  rewrite (proj2 (Z.leb_le 0 _) Hk), Z.mul_1_l, (proj2 (Z.leb_le _ _) Hlow).
  reflexivity.
Qed.

(** A positive integer below [2 ^ 52] is rounded to itself. *)
Lemma roundPositive_small (z : Z) :
  0 < z -> z < 2 ^ 52 -> Double.roundPositive z 1 = Fin (inject_Z z).
Proof.
  intros Hz Hlt.
  assert (Z.log2 z < 52) as Hk by (apply Z.log2_lt_pow2; lia).
  pose proof (Z.log2_nonneg z) as Hk0.
  unfold Double.roundPositive, Double.ulpExponent. rewrite floorLog2_integer by assumption.
  rewrite Z.max_l by lia. set (e := Z.log2 z - 52).
  assert (e < 0) as He by (unfold e; lia).
  rewrite (proj2 (Z.leb_gt 0 e)) by lia.
  rewrite (proj2 (Z.ltb_ge 971 e)) by lia.
  rewrite (proj2 (Z.eqb_neq e 971)) by lia.
  cbn [orb andb]. rewrite nearestEven_1.
  assert (0 < 2 ^ (- e)) as Hp by (apply Z.pow_pos_nonneg; lia).
  rewrite <- Qred_inject_Z. f_equal. apply Qred_complete.
  unfold Qeq, inject_Z. cbn [Qnum Qden]. rewrite Z2Pos.id by assumption. ring.
Qed.

(** A positive integer from [2 ^ 52] on is rounded to an integer that is
    not negative, or overflows. *)
Lemma roundPositive_large (z : Z) :
  2 ^ 52 <= z ->
  let e := Z.log2 z - 52 in
  let m := Double.nearestEven z (2 ^ e) in
  0 <= m
  /\ (Double.roundPositive z 1 = PosInf
      \/ Double.roundPositive z 1 = Fin (inject_Z (m * 2 ^ e))).
Proof.
  intros Hge.
  assert (0 < z) as Hz by lia.
  assert (52 <= Z.log2 z) as Hk by (apply Z.log2_le_pow2; lia).
  unfold Double.roundPositive, Double.ulpExponent. rewrite floorLog2_integer by assumption.
  rewrite Z.max_l by lia. set (e := Z.log2 z - 52).
  assert (0 <= e) as He by (unfold e; lia).
  rewrite (proj2 (Z.leb_le 0 e)) by lia. rewrite Z.mul_1_l. cbv zeta. split.
  - apply nearestEven_nonneg; [lia | apply Z.pow_pos_nonneg; lia].
  - destruct (_ || _); [now left |]. right. now rewrite Qred_inject_Z.
Qed.

Lemma round_inject_Z_pos (z : Z) :
  0 < z -> Double.round (inject_Z z) = Double.roundPositive z 1.
Proof.
  intros Hz. unfold Double.round. rewrite Qred_inject_Z. cbn [inject_Z Qnum Qden].
  destruct z; [lia | reflexivity | lia].
Qed.

(** The integers from 0 to [2 ^ 53] are binary64 numbers. *)
Lemma round_integer (z : Z) :
  0 <= z <= 2 ^ 53 -> Double.round (inject_Z z) = Fin (inject_Z z).
Proof.
  intros [H0 H53].
  destruct (Z.eq_dec z 0) as [-> | Hne]; [reflexivity |].
  rewrite round_inject_Z_pos by lia.
  destruct (Z_lt_le_dec z (2 ^ 52)) as [Hlt | Hge]; [apply roundPositive_small; lia |].
  destruct (Z.eq_dec z (2 ^ 53)) as [-> | Hne53]; [vm_compute; reflexivity |].
  assert (Z.log2 z = 52) as Hk.
  { apply Z.log2_unique; [lia |]. split; [exact Hge |]. change (Z.succ 52) with 53. lia. }
  destruct (roundPositive_large z Hge) as [_ [Hinf | ->]].
  - exfalso. unfold Double.roundPositive, Double.ulpExponent in Hinf.
    rewrite floorLog2_integer, Hk in Hinf by lia.
    change (Z.max (52 - 52) (-1074)) with 0 in Hinf. cbn [Z.leb orb andb] in Hinf.
    simpl in Hinf. discriminate.
  - rewrite Hk. change (2 ^ (52 - 52)) with 1. rewrite nearestEven_1, Z.mul_1_r. reflexivity.
Qed.

(** An integer that is not negative is rounded to one, or overflows. *)
Lemma round_natural (z : Z) :
  0 <= z ->
  Double.round (inject_Z z) = PosInf
  \/ exists z', 0 <= z' /\ Double.round (inject_Z z) = Fin (inject_Z z').
Proof.
  intros H0.
  destruct (Z.eq_dec z 0) as [-> | Hne]; [right; exists 0; split; [lia | reflexivity] |].
  rewrite round_inject_Z_pos by lia.
  destruct (Z_lt_le_dec z (2 ^ 52)) as [Hlt | Hge].
  - right. exists z. split; [lia | apply roundPositive_small; lia].
  - destruct (roundPositive_large z Hge) as [Hm [Hinf | ->]]; [now left |].
    right. eexists. split; [| reflexivity].
    apply Z.mul_nonneg_nonneg; [exact Hm | apply Z.pow_nonneg; lia].
Qed.

(** An integer from [2 ^ 1024] on overflows. *)
Lemma round_overflow (z : Z) : 2 ^ 1024 <= z -> Double.round (inject_Z z) = PosInf.
Proof.
  intros Hge. assert (0 < z) as Hz by lia.
  assert (1024 <= Z.log2 z) as Hk by (apply Z.log2_le_pow2; lia).
  rewrite round_inject_Z_pos by assumption.
  unfold Double.roundPositive, Double.ulpExponent. rewrite floorLog2_integer by assumption.
  rewrite Z.max_l by lia. rewrite (proj2 (Z.ltb_lt 971 _)) by lia. reflexivity.
Qed.

End Rounding.

(** Landmarks of binary64: 1/10 is not a number and is rounded; above
    [2 ^ 53] a tie goes to the even neighbour; the largest number is
    [2 ^ 1024 - 2 ^ 971] and half a unit above it overflows; the smallest
    is [2 ^ (-1074)], half of it is rounded to 0 and three halves of it to
    twice it. *)
Example binary64_landmarks :
  Double.round (1 # 10) = Fin (3602879701896397 # 36028797018963968)
  /\ Double.round (inject_Z (2 ^ 53 + 1)) = Fin (inject_Z (2 ^ 53))
  /\ Double.round (inject_Z (2 ^ 53 + 3)) = Fin (inject_Z (2 ^ 53 + 4))
  /\ Double.round (inject_Z (2 ^ 1024 - 2 ^ 970 - 1)) = Fin (inject_Z (2 ^ 1024 - 2 ^ 971))
  /\ Double.round (inject_Z (2 ^ 1024 - 2 ^ 970)) = PosInf
  /\ Double.round (- inject_Z (2 ^ 1024)) = NegInf
  /\ Double.round (1 # 2 ^ 1074) = Fin (1 # 2 ^ 1074)
  /\ Double.round (1 # 2 ^ 1075) = Fin 0
  /\ Double.round (3 # 2 ^ 1075) = Fin (1 # 2 ^ 1073).
Proof. repeat split; vm_compute; reflexivity. Qed.

(** ** The summary parser *)

Section Parser.
Import Regex PatternSpec.

Lemma allDigits_append (a b : string) :
  allDigits (a +:+ b) <-> allDigits a /\ allDigits b.
Proof. induction a as [|c a IH]; str_simpl; tauto. Qed.

(** What the anchored matcher returns is a digit run followed by the
    literal. *)
Lemma digitsThenPctOff_sound (s cap : string) :
  digitsThenPctOff s = Some cap ->
  cap <> "" /\ allDigits cap /\ exists post, s = cap +:+ pctOff +:+ post.
Proof.
  revert cap. induction s as [|c s IH]; intros cap; simpl; [discriminate |].
  destruct (isDigit c) eqn:Hc; [| discriminate].
  destruct (digitsThenPctOff s) as [cap'|] eqn:Hrec.
  - intros [= <-]. destruct (IH cap' eq_refl) as (_ & Hd & post & ->).
    split; [discriminate |]. split; [simpl; auto |]. now exists post.
  - destruct (String.prefix pctOff s) eqn:Hp; [| discriminate].
    intros [= <-]. apply prefix_append in Hp as [post ->].
    split; [discriminate |]. split; [simpl; auto |]. now exists post.
Qed.

Lemma digitsThenPctOff_complete (ds post : string) :
  ds <> "" -> allDigits ds ->
  digitsThenPctOff (ds +:+ pctOff +:+ post) = Some ds.
Proof.
  induction ds as [|c ds IH]; [congruence |].
  intros _ [Hc Hds]. str_simpl. rewrite Hc.
  destruct ds as [|d ds].
  - rewrite append_empty.
    replace (digitsThenPctOff (pctOff +:+ post)) with (@None string) by reflexivity.
    now rewrite (proj2 (prefix_append pctOff (pctOff +:+ post))) by eauto.
  - now rewrite IH.
Qed.

Lemma occurs_at_head (s ds post : string) :
  Occurs s "" ds post <-> digitsThenPctOff s = Some ds /\ s = ds +:+ pctOff +:+ post.
Proof.
  unfold Occurs; str_simpl. split.
  - intros (-> & Hne & Hd). split; [now apply digitsThenPctOff_complete | reflexivity].
  - intros [H ->]. apply digitsThenPctOff_sound in H as (Hne & Hd & _). auto.
Qed.

Lemma occurs_cons (c c' : ascii) (s pre ds post : string) :
  Occurs (String c s) (String c' pre) ds post <-> c = c' /\ Occurs s pre ds post.
Proof.
  unfold Occurs; str_simpl. split.
  - intros ([= -> ->] & H). auto.
  - intros (-> & -> & H). auto.
Qed.

Lemma occurs_nonempty (pre ds post : string) : ~ Occurs "" pre ds post.
Proof.
  intros (H & Hne & _). destruct pre; str_simpl in H; [| discriminate].
  destruct ds; [congruence | str_simpl in H; discriminate].
Qed.

Lemma matchPercentage_none (s : string) :
  matchPercentage s = None -> NoOccurrence s.
Proof.
  induction s as [|c s IH]; simpl.
  - intros _ pre ds post. apply occurs_nonempty.
  - destruct (isDigit c) eqn:Hc.
    + destruct (digitsThenPctOff s) as [cap|] eqn:Hrec; [discriminate |].
      destruct (String.prefix pctOff s) eqn:Hp; [discriminate |].
      intros Hm pre ds post Hocc. destruct pre as [|c' pre].
      * apply occurs_at_head in Hocc as [H _]. simpl in H.
        rewrite Hc, Hrec, Hp in H. discriminate.
      * apply occurs_cons in Hocc as [_ Hocc]. exact (IH Hm _ _ _ Hocc).
    + intros Hm pre ds post Hocc. destruct pre as [|c' pre].
      * apply occurs_at_head in Hocc as [H _]. simpl in H.
        rewrite Hc in H. discriminate.
      * apply occurs_cons in Hocc as [_ Hocc]. exact (IH Hm _ _ _ Hocc).
Qed.

Lemma matchPercentage_first (s cap : string) :
  matchPercentage s = Some cap ->
  exists pre post, FirstOccurrence s pre cap post.
Proof.
  revert cap. induction s as [|c s IH]; intros cap Hm; [discriminate |].
  cbn [matchPercentage] in Hm.
  destruct (digitsThenPctOff (String c s)) as [cap0|] eqn:Hhead.
  - injection Hm as ->.
    destruct (digitsThenPctOff_sound _ _ Hhead) as (Hne & Hd & post & Hs).
    exists "", post. split.
    + apply occurs_at_head. auto.
    + intros; simpl; lia.
  - destruct (IH cap Hm) as (pre & post & Hocc & Hmin).
    exists (String c pre), post. split.
    + apply occurs_cons. auto.
    + intros pre' ds' post' Hocc'. destruct pre' as [|c' pre'].
      * apply occurs_at_head in Hocc' as [H _]. congruence.
      * apply occurs_cons in Hocc' as [_ Hocc']. simpl.
        specialize (Hmin _ _ _ Hocc'). lia.
Qed.

(** The capture group is a non-empty run of digits, so [parseInt] never
    sees a string it would turn into [NaN]. *)
Lemma matchPercentage_digits (s cap : string) :
  matchPercentage s = Some cap -> cap <> "" /\ allDigits cap.
Proof.
  intros H. destruct (matchPercentage_first _ _ H) as (pre & post & (_ & Hne & Hd) & _).
  auto.
Qed.

Lemma digitValue_range (c : ascii) : isDigit c = true -> 0 <= digitValue c <= 9.
Proof.
  unfold isDigit, digitValue. intros H. apply andb_true_iff in H as [H1 H2].
  apply N.leb_le in H1, H2. lia.
Qed.

Lemma parseIntFrom_decimalValue (ds : string) (acc : Z) :
  allDigits ds ->
  parseIntFrom acc ds = acc * 10 ^ Z.of_nat (String.length ds) + decimalValue ds.
Proof.
  revert acc. induction ds as [|c ds IH]; intros acc.
  - intros _. simpl. lia.
  - intros [Hc Hd]. cbn [parseIntFrom decimalValue String.length].
    rewrite Hc, IH by assumption.
    rewrite Nat2Z.inj_succ, Z.pow_succ_r by lia. ring.
Qed.

Lemma parseInt10_decimalValue (ds : string) :
  ds <> "" -> allDigits ds -> parseInt10 ds = Double.round (inject_Z (decimalValue ds)).
Proof.
  intros Hne H. unfold parseInt10. destruct ds as [|c ds]; [congruence |].
  rewrite (proj1 H). rewrite parseIntFrom_decimalValue by assumption.
  now rewrite Z.mul_0_l, Z.add_0_l.
Qed.

Lemma decimalValue_nonneg (ds : string) : allDigits ds -> 0 <= decimalValue ds.
Proof.
  induction ds as [|c ds IH]; simpl; [lia |].
  intros [Hc Hd]. specialize (IH Hd). pose proof (digitValue_range c Hc).
  assert (0 <= 10 ^ Z.of_nat (String.length ds)) by (apply Z.pow_nonneg; lia).
  nia.
Qed.

Lemma append_inj_length (a a' b b' : string) :
  String.length a = String.length a' -> a +:+ b = a' +:+ b' -> a = a' /\ b = b'.
Proof.
  revert a'. induction a as [|c a IH]; intros [|c' a']; str_simpl; try discriminate.
  - auto.
  - intros [= Hl] [= -> H]. destruct (IH _ Hl H) as [-> ->]. auto.
Qed.

Lemma digit_run_unique (ds ds' post post' : string) :
  allDigits ds -> allDigits ds' ->
  ds +:+ pctOff +:+ post = ds' +:+ pctOff +:+ post' -> ds = ds'.
Proof.
  revert ds'. induction ds as [|c ds IH]; intros [|c' ds']; str_simpl.
  - reflexivity.
  - intros _ [Hc _] [= <- _]. discriminate.
  - intros [Hc _] _ [= -> _]. discriminate.
  - intros [_ Hd] [_ Hd'] [= -> H]. f_equal. eauto.
Qed.

(** The first occurrence is unique. *)
Lemma firstOccurrence_unique (s pre ds post pre' ds' post' : string) :
  FirstOccurrence s pre ds post -> FirstOccurrence s pre' ds' post' ->
  pre = pre' /\ ds = ds' /\ post = post'.
Proof.
  intros [Ho Hmin] [Ho' Hmin'].
  pose proof (Hmin _ _ _ Ho'). pose proof (Hmin' _ _ _ Ho).
  destruct Ho as (Hs & _ & Hd), Ho' as (Hs' & _ & Hd').
  rewrite Hs in Hs'.
  apply append_inj_length in Hs' as [-> Hrest]; [| lia].
  assert (ds = ds') as -> by (eapply digit_run_unique; eauto).
  split; [reflexivity | split; [reflexivity |]].
  apply append_inj_length in Hrest as [_ Hrest]; [| reflexivity].
  apply append_inj_length in Hrest as [_ Hrest]; [assumption | reflexivity].
Qed.

End Parser.

Lemma parseSummaryForPercentage_cases (summary : string) :
  (exists pre ds post,
      PatternSpec.FirstOccurrence summary pre ds post
      /\ parseSummaryForPercentage summary
         = Double.round (inject_Z (PatternSpec.decimalValue ds)))
  \/ (PatternSpec.NoOccurrence summary /\ parseSummaryForPercentage summary = Fin 0).
Proof.
  unfold parseSummaryForPercentage.
  destruct (Regex.matchPercentage summary) as [cap|] eqn:Hm.
  - left. destruct (matchPercentage_first _ _ Hm) as (pre & post & Hfirst).
    exists pre, cap, post. split; [assumption |].
    destruct Hfirst as [(_ & Hne & Hd) _]. now apply parseInt10_decimalValue.
  - right. split; [now apply matchPercentage_none | reflexivity].
Qed.

(** Whatever occurrence is the first one, the parser returns its integer,
    rounded. *)
Lemma parseSummaryForPercentage_of_first (summary pre ds post : string) :
  PatternSpec.FirstOccurrence summary pre ds post ->
  parseSummaryForPercentage summary = Double.round (inject_Z (PatternSpec.decimalValue ds)).
Proof.
  intros Hfirst.
  destruct (parseSummaryForPercentage_cases summary)
    as [(pre' & ds' & post' & Hfirst' & ->) | [Hno _]].
  - now destruct (firstOccurrence_unique _ _ _ _ _ _ _ Hfirst Hfirst') as (_ & -> & _).
  - destruct Hfirst as [Ho _]. now apply Hno in Ho.
Qed.

(** The parser returns an integer that is not negative, or [Infinity]. *)
Lemma parseSummaryForPercentage_nonneg (summary : string) :
  parseSummaryForPercentage summary = PosInf
  \/ exists z, 0 <= z /\ parseSummaryForPercentage summary = Fin (inject_Z z).
Proof.
  destruct (parseSummaryForPercentage_cases summary)
    as [(pre & ds & post & ((_ & _ & Hd) & _) & ->) | [_ ->]].
  - apply round_natural. now apply decimalValue_nonneg.
  - right. exists 0. split; [lia | reflexivity].
Qed.

Lemma parseSummaryForPercentage_exact (summary pre ds post : string) :
  PatternSpec.FirstOccurrence summary pre ds post ->
  PatternSpec.decimalValue ds <= 2 ^ 53 ->
  parseSummaryForPercentage summary = Fin (inject_Z (PatternSpec.decimalValue ds)).
Proof.
  intros Hfirst Hle. rewrite (parseSummaryForPercentage_of_first _ _ _ _ Hfirst).
  apply round_integer. split; [| exact Hle].
  destruct Hfirst as [(_ & _ & Hd) _]. now apply decimalValue_nonneg.
Qed.

(** C4 as stated fails: the integer 9007199254740993, which is
    [2 ^ 53 + 1], is not a binary64 number, and [parseInt] returns
    9007199254740992. *)
Lemma parseSummaryForPercentage_rounds :
  PatternSpec.FirstOccurrence "9007199254740993% off" "" "9007199254740993" ""
  /\ PatternSpec.decimalValue "9007199254740993" = 9007199254740993
  /\ parseSummaryForPercentage "9007199254740993% off" = Fin (inject_Z 9007199254740992).
Proof.
  split; [| split; [reflexivity | vm_compute; reflexivity]].
  split.
  - split; [reflexivity |]. split; [discriminate |]. vm_compute. tauto.
  - intros pre' ds' post' _. simpl. lia.
Qed.

(** C4, amended.  For every description, the extracted percentage is the
    integer of the first (leftmost) occurrence of [<integer>% off] rounded
    to the nearest binary64 number, which is that integer itself up to
    [2 ^ 53] and [Infinity] from [2 ^ 1024] on, and it is 0 when the
    description holds no occurrence; a description that starts
    ["5% off up to ₹750 on "] and ends [" Min Trxn value ₹5,000"] yields
    5. *)
Theorem parseSummaryForPercentage_first_occurrence :
  (forall summary,
      (exists pre ds post,
          PatternSpec.FirstOccurrence summary pre ds post
          /\ parseSummaryForPercentage summary
             = Double.round (inject_Z (PatternSpec.decimalValue ds))
          /\ (PatternSpec.decimalValue ds <= 2 ^ 53 ->
              parseSummaryForPercentage summary
              = Fin (inject_Z (PatternSpec.decimalValue ds)))
          /\ (2 ^ 1024 <= PatternSpec.decimalValue ds ->
              parseSummaryForPercentage summary = PosInf))
      \/ (PatternSpec.NoOccurrence summary /\ parseSummaryForPercentage summary = Fin 0))
  /\ (forall middle,
         parseSummaryForPercentage
           ("5% off up to ₹750 on " +:+ middle +:+ " Min Trxn value ₹5,000") = Fin 5).
Proof.
  split.
  - intros summary.
    destruct (parseSummaryForPercentage_cases summary)
      as [(pre & ds & post & Hfirst & Heq) | Hno]; [left | now right].
    exists pre, ds, post. split; [exact Hfirst |]. split; [exact Heq |]. split.
    + now apply (parseSummaryForPercentage_exact summary pre ds post).
    + intros Hbig. rewrite Heq. now apply round_overflow.
  - intros middle. reflexivity.
Qed.
(** ** The normalizer *)

Section NormalizerFacts.
Import Normalizer.

Lemma mapM_Ok_intro {A B} (f : A -> result B) (xs : list A) :
  (forall x, x ∈ xs -> exists y, f x = Ok y) -> exists ys, Result.mapM f xs = Ok ys.
Proof.
  induction xs as [|x xs IH]; intros H; simpl.
  - eauto.
  - destruct (H x) as [y ->]; [left |]. simpl.
    destruct IH as [ys ->]; [intros; apply H; now right |]. simpl. eauto.
Qed.

(** What a record built by [toOffer] is made of. *)
Lemma toOffer_inv (m : gmap string Contributors.t) (adj : Adjustment.t) (o : Offer.t) :
  toOffer m adj = Ok (Some o) ->
  exists details contributors summary,
    Adjustment.offer_details adj = Some details
    /\ OfferDetails.adjustment_id details = Some (Offer.adjustmentId o)
    /\ m !! Offer.adjustmentId o = Some contributors
    /\ OfferDetails.summary details = Some summary
    /\ expandInstruments contributors = Ok (Offer.paymentInstruments o)
    /\ o = Offer.mk (Offer.adjustmentId o)
                    (OfferDetails.title details)
                    summary
                    (OfferDetails.adjustment_type details)
                    (Offer.paymentInstruments o)
                    (toMajorUnits (OfferDetails.offer_txn_limits details
                                   ≫= TxnLimits.min_txn_value))
                    (toMajorUnits (OfferDetails.offer_txn_limits details
                                   ≫= TxnLimits.max_discount_per_txn))
                    (parseSummaryForPercentage summary).
Proof.
  unfold toOffer.
  destruct (Adjustment.offer_details adj) as [details|]; [| discriminate].
  destruct (OfferDetails.adjustment_id details) as [id|] eqn:Hid; [| discriminate].
  destruct (m !! id) as [c|] eqn:Hc; [| discriminate].
  destruct (OfferDetails.summary details) as [summary|] eqn:Hs; [| discriminate].
  destruct (expandInstruments c) as [pis|e] eqn:Hp; simpl; [| discriminate].
  intros [= <-]. simpl. exists details, c, summary. repeat split; auto.
Qed.

Lemma process_cons (m : gmap string Contributors.t) (adj : Adjustment.t)
    (l : list Adjustment.t) :
  process m (adj :: l) =
  if applicable adj
  then Result.bind (toOffer m adj) (fun r =>
       Result.bind (process m l) (fun rest =>
       Ok (match r with Some o => o :: rest | None => rest end)))
  else process m l.
Proof.
  unfold process. simpl. destruct (applicable adj); [| reflexivity]. simpl.
  destruct (toOffer m adj) as [[o|]|e]; simpl; try reflexivity;
    destruct (Result.mapM _ _); reflexivity.
Qed.

Lemma process_nil (m : gmap string Contributors.t) : process m [] = Ok [].
Proof. reflexivity. Qed.

(** Every candidate was built from an adjustment that passed the filter. *)
Lemma process_elem (m : gmap string Contributors.t) (l : list Adjustment.t)
    (offers : list Offer.t) (o : Offer.t) :
  process m l = Ok offers -> o ∈ offers ->
  exists adj, adj ∈ l /\ applicable adj = true /\ toOffer m adj = Ok (Some o).
Proof.
  revert offers. induction l as [|adj l IH]; intros offers.
  - rewrite process_nil. intros [= <-] H. inversion H.
  - rewrite process_cons. destruct (applicable adj) eqn:Happ.
    + destruct (toOffer m adj) as [r|e] eqn:Hto; simpl; [| discriminate].
      destruct (process m l) as [rest|e] eqn:Hrest; simpl; [| discriminate].
      intros [= <-] Hin.
      assert (o ∈ rest -> exists adj0, adj0 ∈ adj :: l /\ applicable adj0 = true
                                       /\ toOffer m adj0 = Ok (Some o)) as Hrec.
      { intros H. destruct (IH rest eq_refl H) as (a & Ha & ?). exists a.
        split; [now right | assumption]. }
      destruct r as [o'|]; [| auto].
      apply elem_of_cons in Hin as [-> | Hin]; [| auto].
      exists adj. split; [left | auto].
    + intros Hp Hin. destruct (IH offers Hp Hin) as (a & Ha & ?). exists a.
      split; [now right | assumption].
Qed.

Lemma applicable_inv (adj : Adjustment.t) :
  applicable adj = true ->
  exists details, Adjustment.offer_details adj = Some details
                  /\ OfferDetails.adjustment_sub_type details <> Some EMI_FULL_INTEREST_WAIVER.
Proof.
  unfold applicable. destruct (Adjustment.offer_details adj) as [details|]; [| discriminate].
  intros H. exists details. split; [reflexivity |].
  apply negb_true_iff, bool_decide_eq_false in H. exact H.
Qed.

(** An unusable adjustment leaves no trace in the result, not even an
    exception. *)
Lemma process_unusable_head (m : gmap string Contributors.t) (bad : Adjustment.t)
    (l : list Adjustment.t) :
  NormalizerSpec.Unusable m bad -> process m (bad :: l) = process m l.
Proof.
  intros Hbad. rewrite process_cons. destruct (applicable bad) eqn:Happ; [| reflexivity].
  destruct (applicable_inv _ Happ) as (details & Hd & Hsub).
  unfold NormalizerSpec.Unusable in Hbad. rewrite Hd in Hbad.
  destruct Hbad as [Hw | Hno]; [contradiction |].
  assert (toOffer m bad = Ok None) as ->.
  { unfold toOffer. rewrite Hd.
    destruct (OfferDetails.adjustment_id details) as [id|]; [| reflexivity].
    now rewrite Hno. }
  simpl. destruct (process m l); reflexivity.
Qed.

Lemma process_unusable (m : gmap string Contributors.t) (bad : Adjustment.t)
    (l1 l2 : list Adjustment.t) :
  NormalizerSpec.Unusable m bad -> process m (l1 ++ bad :: l2) = process m (l1 ++ l2).
Proof.
  intros Hbad. induction l1 as [|a l1 IH]; simpl.
  - now apply process_unusable_head.
  - rewrite !process_cons, IH. reflexivity.
Qed.

(** The candidate built from a usable adjustment is not unusable: the
    facts that [toOffer_inv] and [applicable_inv] establish contradict
    [Unusable]. *)
Lemma built_not_unusable (m : gmap string Contributors.t) (adj : Adjustment.t) (o : Offer.t) :
  applicable adj = true -> toOffer m adj = Ok (Some o) -> ~ NormalizerSpec.Unusable m adj.
Proof.
  intros Happ Hto Hbad.
  destruct (applicable_inv _ Happ) as (details & Hd & Hsub).
  destruct (toOffer_inv _ _ _ Hto) as (details' & c & summary & Hd' & Hid & Hc & _).
  unfold NormalizerSpec.Unusable in Hbad. rewrite Hd in Hbad.
  assert (details' = details) as -> by congruence.
  destruct Hbad as [Hw | Hno]; [contradiction |].
  rewrite Hid in Hno. congruence.
Qed.

End NormalizerFacts.

(** ** The storage layer *)

Section StoreFacts.

Lemma insertOrdered_elem (docs coll : list Offer.t) (o : Offer.t) :
  o ∈ (Store.insertOrdered coll docs).2 -> o ∈ coll \/ o ∈ docs.
Proof.
  revert coll. induction docs as [|d ds IH]; intros coll; simpl.
  - auto.
  - case_bool_decide as Hdup; simpl.
    + auto.
    + intros Hin. apply IH in Hin as [Hin | Hin].
      * apply elem_of_app in Hin as [Hin | Hin]; [auto |].
        apply list_elem_of_singleton in Hin as ->. right; left.
      * right; now right.
Qed.

Lemma commitOthers_elem (others : list Offer.t) (w : world) (o : Offer.t) :
  o ∈ collection (Store.commitOthers others w).2 -> o ∈ collection w \/ o ∈ others.
Proof.
  unfold Store.commitOthers; simpl. generalize (collection w) as coll.
  induction others as [|d ds IH]; intros coll; simpl.
  - auto.
  - intros Hin. apply IH in Hin as [Hin | Hin]; [| right; now right].
    case_bool_decide as Hdup; [auto |].
    apply elem_of_app in Hin as [Hin | Hin]; [auto |].
    apply list_elem_of_singleton in Hin as ->. right; left.
Qed.

Lemma commitOthers_nil (w : world) : Store.commitOthers [] w = (Ok tt, w).
Proof. destruct w; reflexivity. Qed.

End StoreFacts.

(** ** [createOffers] *)

Section CreateOffers.

(** The ids found by the existence check are those of the collection, as
    far as the candidates are concerned. *)
Lemma existing_filter (coll offers : list Offer.t) :
  List.filter
    (fun o => negb (bool_decide
       (Offer.adjustmentId o ∈
          (list_to_set
             (map Offer.adjustmentId
                (List.filter
                   (fun x => bool_decide (Offer.adjustmentId x ∈ map Offer.adjustmentId offers))
                   coll)) : gset string))))
    offers
  = StoreSpec.notStored coll offers.
Proof.
  unfold StoreSpec.notStored. apply filter_ext_in. intros o Ho. f_equal. apply bool_decide_ext.
  rewrite elem_of_list_to_set, !list_elem_of_In. unfold Store.ids.
  rewrite !in_map_iff. split.
  - intros (x & Hx & Hin). apply filter_In in Hin as [Hin _]. eauto.
  - intros (x & Hx & Hin). exists x. split; [assumption |].
    apply filter_In. split; [assumption |].
    apply bool_decide_eq_true. apply list_elem_of_In, in_map_iff.
    exists o. split; [congruence | assumption].
Qed.

Lemma createOffers_missing (storage : Storage.t) (others : list Offer.t) (w : world) :
  createOffers storage (mkIngest None) others w
  = (Ok (respond 400 (Message "Missing flipkartOfferApiResponse in request body")), w).
Proof. reflexivity. Qed.

Lemma createOffers_throw (storage : Storage.t) (response : ApiResponse.t)
    (others : list Offer.t) (w : world) (e : exn) :
  Normalizer.offersToProcess (Normalizer.apiData response) = Throw e ->
  createOffers storage (mkIngest (Some response)) others w
  = (Ok (respond 500 (Failure "Error creating offers" e)), w).
Proof.
  intros H. unfold createOffers, Handler.tryCatch, Handler.bind, Handler.lift; simpl.
  now rewrite H.
Qed.

Lemma createOffers_none (storage : Storage.t) (response : ApiResponse.t)
    (others : list Offer.t) (w : world) :
  Normalizer.offersToProcess (Normalizer.apiData response) = Ok [] ->
  createOffers storage (mkIngest (Some response)) others w
  = (Ok (respond 200 (Counts 0 0)), w).
Proof.
  intros H. unfold createOffers, Handler.tryCatch, Handler.bind, Handler.lift; simpl.
  now rewrite H.
Qed.

(** The run of the handler once candidates were identified, over any
    storage layer. *)
Lemma createOffers_run (storage : Storage.t) (response : ApiResponse.t)
    (others : list Offer.t) (w : world) (offers : list Offer.t) :
  Normalizer.offersToProcess (Normalizer.apiData response) = Ok offers ->
  offers <> [] ->
  createOffers storage (mkIngest (Some response)) others w =
  let adjustmentIds := map Offer.adjustmentId offers in
  let w1 := mkWorld (collection w) (calls w ++ [OpFindByIds adjustmentIds]) in
  match storage (OpFindByIds adjustmentIds) with
  | Some fault =>
      (Ok (respond 500 (Failure "Error creating offers"
                          (StorageError (Storage.message fault)))), w1)
  | None =>
      let w2 := (Store.commitOthers others w1).2 in
      let new := StoreSpec.notStored (collection w) offers in
      if (0 <? length new)%nat then
        match Store.insertMany storage new w2 with
        | (Ok _, w3) => (Ok (respond 201 (Counts (length offers) (length new))), w3)
        | (Throw e, w3) => (Ok (respond 500 (Failure "Error creating offers" e)), w3)
        end
      else (Ok (respond 201 (Counts (length offers) (length new))), w2)
  end.
Proof.
  intros H Hne.
  unfold createOffers, Handler.tryCatch, Handler.bind, Handler.lift, Handler.ret; simpl.
  rewrite H.
  destruct offers as [|o offers]; [congruence |].
  cbn [length Nat.eqb]. unfold Store.findByIds. cbn [collection calls].
  destruct (storage _) as [fault|]; [reflexivity |].
  rewrite existing_filter.
  destruct (0 <? length _)%nat; [| reflexivity].
  destruct (Store.insertMany storage _ _) as [[[]|e] w3]; reflexivity.
Qed.

(** The same while the storage layer serves every call. *)
Lemma createOffers_some (response : ApiResponse.t) (others : list Offer.t) (w : world)
    (offers : list Offer.t) :
  Normalizer.offersToProcess (Normalizer.apiData response) = Ok offers ->
  offers <> [] ->
  createOffers Storage.reliable (mkIngest (Some response)) others w =
  let w1 := mkWorld (collection w)
                    (calls w ++ [OpFindByIds (map Offer.adjustmentId offers)]) in
  let w2 := (Store.commitOthers others w1).2 in
  let new := StoreSpec.notStored (collection w) offers in
  if (0 <? length new)%nat then
    match Store.insertMany Storage.reliable new w2 with
    | (Ok _, w3) => (Ok (respond 201 (Counts (length offers) (length new))), w3)
    | (Throw e, w3) => (Ok (respond 500 (Failure "Error creating offers" e)), w3)
    end
  else (Ok (respond 201 (Counts (length offers) (length new))), w2).
Proof.
  intros H Hne.
  unfold createOffers, Handler.tryCatch, Handler.bind, Handler.lift, Handler.ret; simpl.
  rewrite H.
  destruct offers as [|o offers]; [congruence |].
  cbn [length Nat.eqb]. unfold Store.findByIds. cbn [collection calls].
  rewrite existing_filter.
  destruct (0 <? length _)%nat; [| reflexivity].
  destruct (Store.insertMany Storage.reliable _ _) as [[[]|e] w3]; reflexivity.
Qed.

Lemma insertMany_elem (docs : list Offer.t) (w : world) (o : Offer.t) :
  o ∈ collection (Store.insertMany Storage.reliable docs w).2 -> o ∈ collection w \/ o ∈ docs.
Proof.
  unfold Store.insertMany. destruct (List.find _ docs); simpl; [auto |].
  destruct (Store.insertOrdered (collection w) docs) as [r coll] eqn:Hins; simpl.
  intros H. apply (insertOrdered_elem docs (collection w)). now rewrite Hins.
Qed.

(** Whatever the handler adds to the collection is one of the candidates
    (or was committed by another request meanwhile). *)
Lemma createOffers_elem (req : IngestRequest) (others : list Offer.t) (w : world)
    (o : Offer.t) :
  o ∈ collection (createOffers Storage.reliable req others w).2 ->
  o ∈ collection w \/ o ∈ others
  \/ exists response offers,
       flipkartOfferApiResponse req = Some response
       /\ Normalizer.offersToProcess (Normalizer.apiData response) = Ok offers
       /\ o ∈ offers.
Proof.
  destruct req as [[response|]]; [| rewrite createOffers_missing; auto].
  destruct (Normalizer.offersToProcess (Normalizer.apiData response)) as [offers|e] eqn:Hn;
    [| rewrite (createOffers_throw _ _ _ _ _ Hn); auto].
  destruct offers as [|o0 offers]; [rewrite (createOffers_none _ _ _ _ Hn); auto |].
  rewrite (createOffers_some _ _ _ _ Hn) by discriminate. cbv zeta.
  set (w1 := mkWorld _ _). set (new := StoreSpec.notStored _ _).
  assert (forall x, x ∈ collection (Store.commitOthers others w1).2 ->
                    x ∈ collection w \/ x ∈ others) as Hw2.
  { intros x Hx. now apply commitOthers_elem in Hx. }
  assert (forall x, x ∈ new -> x ∈ o0 :: offers) as Hnew.
  { intros x Hx. apply list_elem_of_In, filter_In in Hx as [Hx _]. now apply list_elem_of_In. }
  destruct (0 <? length new)%nat.
  - pose proof (insertMany_elem new (Store.commitOthers others w1).2 o) as Hins.
    destruct (Store.insertMany Storage.reliable new _) as [[[]|e] w3]; simpl in *; intros Ho;
      (destruct (Hins Ho) as [H | H]; [apply Hw2 in H; tauto |]);
      right; right; exists response, (o0 :: offers); auto.
  - simpl. intros Ho. apply Hw2 in Ho. tauto.
Qed.

End CreateOffers.

(** C7.  When normalization yields no candidate, the handler answers 200
    with both counts 0, makes no storage call (no existence check, no
    insert) and leaves the collection as it was. *)
Theorem createOffers_zero_candidates (req : IngestRequest) (others : list Offer.t) (w : world)
    (response : ApiResponse.t) :
  flipkartOfferApiResponse req = Some response ->
  Normalizer.offersToProcess (Normalizer.apiData response) = Ok [] ->
  createOffers Storage.reliable req others w = (Ok (respond 200 (Counts 0 0)), w)
  /\ calls (createOffers Storage.reliable req others w).2 = calls w
  /\ collection (createOffers Storage.reliable req others w).2 = collection w.
Proof.
  intros Hreq Hn. destruct req as [r]. simpl in Hreq. subst r.
  rewrite (createOffers_none _ _ _ _ Hn). auto.
Qed.

(** C3.  Every record an ingestion adds to the collection was built from an
    adjustment of the payload's list that has offer details, whose
    sub-type is not the full-interest-waiver one and whose [adjustment_id]
    has an entry in the correlation map; and an adjustment that lacks any
    of these is dropped silently: the candidates, or the exception, are
    those of the list without it. *)
Theorem unusable_adjustments_never_persisted (req : IngestRequest) (others : list Offer.t)
    (w : world) :
  (forall o,
      o ∈ collection (createOffers Storage.reliable req others w).2 ->
      o ∈ collection w \/ o ∈ others
      \/ exists response adj details contributors,
           flipkartOfferApiResponse req = Some response
           /\ adj ∈ Normalizer.adjustmentList (Normalizer.apiData response)
           /\ Adjustment.offer_details adj = Some details
           /\ OfferDetails.adjustment_sub_type details <> Some EMI_FULL_INTEREST_WAIVER
           /\ OfferDetails.adjustment_id details = Some (Offer.adjustmentId o)
           /\ Normalizer.contributorsMap (Normalizer.apiData response)
                !! Offer.adjustmentId o = Some contributors
           /\ ~ NormalizerSpec.Unusable
                  (Normalizer.contributorsMap (Normalizer.apiData response)) adj
           /\ Normalizer.toOffer
                (Normalizer.contributorsMap (Normalizer.apiData response)) adj
              = Ok (Some o))
  /\ (forall m bad l1 l2,
         NormalizerSpec.Unusable m bad ->
         Normalizer.process m (l1 ++ bad :: l2) = Normalizer.process m (l1 ++ l2)).
Proof.
  split.
  - intros o Ho. apply createOffers_elem in Ho as [H | [H | H]]; [auto | auto |].
    destruct H as (response & offers & Hreq & Hn & Hin).
    destruct (process_elem _ _ _ _ Hn Hin) as (adj & Hadj & Happ & Hto).
    destruct (applicable_inv _ Happ) as (details & Hd & Hsub).
    destruct (toOffer_inv _ _ _ Hto) as (details' & c & summary & Hd' & Hid & Hc & _).
    assert (details' = details) as -> by congruence.
    right; right. exists response, adj, details, c.
    repeat split; auto. now apply (built_not_unusable _ _ o).
  - intros. now apply process_unusable.
Qed.

(** C7, at a payload whose adjustments are all unusable. *)
Lemma createOffers_zero_candidates_witness :
  createOffers Storage.reliable (Samples.request [Samples.adjWaiver; Samples.adjOrphan; Samples.adjNoDetails])
               [] Samples.emptyWorld
  = (Ok (respond 200 (Counts 0 0)), Samples.emptyWorld).
Proof.
  refine (proj1 (createOffers_zero_candidates
                   (Samples.request [Samples.adjWaiver; Samples.adjOrphan; Samples.adjNoDetails])
                   [] Samples.emptyWorld
                   (Samples.envelope [Samples.adjWaiver; Samples.adjOrphan; Samples.adjNoDetails])
                   eq_refl _)).
  vm_compute. reflexivity.
Defined.

(** C3, at a payload with one usable adjustment among unusable ones. *)
Lemma unusable_adjustments_never_persisted_witness :
  (exists adj details,
      adj ∈ [Samples.adjWaiver; Samples.adjIdfc; Samples.adjOrphan]
      /\ Adjustment.offer_details adj = Some details
      /\ OfferDetails.adjustment_sub_type details <> Some EMI_FULL_INTEREST_WAIVER
      /\ OfferDetails.adjustment_id details = Some "FPO1")
  /\ Normalizer.process (Normalizer.contributorsMap (Samples.data []))
       ([Samples.adjIdfc] ++ Samples.adjOrphan :: [Samples.adjUpi])
     = Normalizer.process (Normalizer.contributorsMap (Samples.data []))
         ([Samples.adjIdfc] ++ [Samples.adjUpi]).
Proof.
  pose proof (unusable_adjustments_never_persisted
                (Samples.request [Samples.adjWaiver; Samples.adjIdfc; Samples.adjOrphan])
                [] Samples.emptyWorld) as [Hprov Hdrop].
  split.
  - destruct (Hprov Samples.offerIdfc) as [H | [H | H]].
    + vm_compute. left.
    + inversion H.
    + inversion H.
    + destruct H as (response & adj & details & c & [= <-] & Hadj & Hd & Hsub & Hid & _).
      exists adj, details. auto.
  - apply Hdrop. vm_compute. right. reflexivity.
Defined.

(** The conversion to major units is the quotient by 100, rounded as
    JavaScript rounds it. *)
Lemma toMajorUnits_round (v : option Z) :
  Normalizer.toMajorUnits v = Double.round (NormalizerSpec.majorUnits v).
Proof. destruct v; reflexivity. Qed.

(** No number of a candidate is [NaN]. *)
Lemma candidate_numbers (m : gmap string Contributors.t) (adj : Adjustment.t) (o : Offer.t) :
  Normalizer.toOffer m adj = Ok (Some o) ->
  Offer.minTrxnValue o <> NaN /\ Offer.maxDiscount o <> NaN
  /\ Offer.discountPercentage o <> NaN.
Proof.
  intros Hto.
  destruct (toOffer_inv _ _ _ Hto) as (details & c & summary & _ & _ & _ & _ & _ & ->).
  cbn [Offer.minTrxnValue Offer.maxDiscount Offer.discountPercentage].
  rewrite !toMajorUnits_round.
  split; [apply round_not_NaN |]. split; [apply round_not_NaN |].
  destruct (parseSummaryForPercentage_nonneg summary) as [-> | (z & _ & ->)]; discriminate.
Qed.



(** An amount whose hundredth is not a binary64 number: 9999 minor units
    are stored as the number nearest to 99.99, which lies below it and is
    the number the amount ["99.99"] of a query denotes. *)
Example hundredth_rounded :
  Normalizer.toMajorUnits (Some 9999) = Fin (7036170730324623 # 70368744177664)
  /\ (7036170730324623 # 70368744177664 < 9999 # 100)%Q
  /\ Normalizer.toMajorUnits (Some 9999) = Number (Some "99.99")
  /\ ~ Double.representable (9999 # 100).
Proof.
  split; [vm_compute; reflexivity |]. split; [reflexivity |].
  split; [vm_compute; reflexivity |].
  intros (y & Hy & Heq). vm_compute in Hy. injection Hy as <-. discriminate Heq.
Qed.

(** C9 as stated fails: a description reading ["150% off ..."] yields the
    percentage 150. *)
Lemma discountPercentage_above_100 :
  Normalizer.offersToProcess (Samples.data [Samples.adjHuge]) = Ok [Samples.offerHuge]
  /\ Offer.discountPercentage Samples.offerHuge = Fin (inject_Z 150)
  /\ ~ (150 <= 100).
Proof. split; [vm_compute; reflexivity | split; [reflexivity | lia]]. Qed.

(** Nor is the percentage always an integer: a run of 310 digits is read
    as [Infinity], and stored. *)
Lemma discountPercentage_infinite :
  exists o,
    Normalizer.offersToProcess (Samples.data [Samples.adjEndless]) = Ok [o]
    /\ Offer.discountPercentage o = PosInf
    /\ Offer.validate o = true.
Proof. eexists. split; [vm_compute; reflexivity | split; reflexivity]. Qed.

(** C9, amended.  The percentage of every candidate is what
    [parseSummaryForPercentage] reads in its description: an integer that
    is not negative, or [Infinity]; it is 0 when the description holds no
    [<integer>% off], the integer of the first occurrence when that is at
    most [2 ^ 53], and [Infinity] when that is [2 ^ 1024] or more.  No
    upper bound holds. *)
Theorem discountPercentage_nonneg_integer (d : ApiData.t) (offers : list Offer.t) (o : Offer.t) :
  Normalizer.offersToProcess d = Ok offers ->
  o ∈ offers ->
  Offer.discountPercentage o = parseSummaryForPercentage (Offer.description o)
  /\ (Offer.discountPercentage o = PosInf
      \/ exists n : Z, 0 <= n /\ Offer.discountPercentage o = Fin (inject_Z n))
  /\ (PatternSpec.NoOccurrence (Offer.description o) -> Offer.discountPercentage o = Fin 0)
  /\ (forall pre ds post,
         PatternSpec.FirstOccurrence (Offer.description o) pre ds post ->
         (PatternSpec.decimalValue ds <= 2 ^ 53 ->
          Offer.discountPercentage o = Fin (inject_Z (PatternSpec.decimalValue ds)))
         /\ (2 ^ 1024 <= PatternSpec.decimalValue ds ->
             Offer.discountPercentage o = PosInf)).
Proof.
  intros Hn Hin.
  destruct (process_elem _ _ _ _ Hn Hin) as (adj & _ & _ & Hto).
  destruct (toOffer_inv _ _ _ Hto) as (details & c & summary & _ & _ & _ & _ & _ & Ho).
  rewrite Ho; cbn [Offer.discountPercentage Offer.description].
  split; [reflexivity |]. split; [apply parseSummaryForPercentage_nonneg |]. split.
  - intros Hno. destruct (parseSummaryForPercentage_cases summary)
      as [(pre & ds & post & [Hocc _] & _) | [_ H]]; [| exact H].
    now apply Hno in Hocc.
  - intros pre ds post Hfirst. split.
    + now apply (parseSummaryForPercentage_exact summary pre ds post).
    + intros Hbig. rewrite (parseSummaryForPercentage_of_first _ _ _ _ Hfirst).
      now apply round_overflow.
Qed.

Lemma discountPercentage_nonneg_integer_witness :
  Offer.discountPercentage Samples.offerHuge
  = parseSummaryForPercentage (Offer.description Samples.offerHuge)
  /\ (Offer.discountPercentage Samples.offerHuge = PosInf
      \/ exists n : Z, 0 <= n /\ Offer.discountPercentage Samples.offerHuge = Fin (inject_Z n))
  /\ (PatternSpec.NoOccurrence (Offer.description Samples.offerHuge) ->
      Offer.discountPercentage Samples.offerHuge = Fin 0)
  /\ (forall pre ds post,
         PatternSpec.FirstOccurrence (Offer.description Samples.offerHuge) pre ds post ->
         (PatternSpec.decimalValue ds <= 2 ^ 53 ->
          Offer.discountPercentage Samples.offerHuge
          = Fin (inject_Z (PatternSpec.decimalValue ds)))
         /\ (2 ^ 1024 <= PatternSpec.decimalValue ds ->
             Offer.discountPercentage Samples.offerHuge = PosInf)).
Proof.
  apply (discountPercentage_nonneg_integer (Samples.data [Samples.adjHuge])
           [Samples.offerHuge] Samples.offerHuge).
  - vm_compute. reflexivity.
  - left.
Defined.

(** C5 as stated fails: a usable adjustment without [summary] makes the
    normalizer throw, and the ingestion answers 500. *)
Lemma missing_summary_throws :
  Normalizer.applicable Samples.adjNoSummary = true
  /\ Normalizer.toOffer (Normalizer.contributorsMap (Samples.data [])) Samples.adjNoSummary
     = Throw (TypeError "match")
  /\ createOffers Storage.reliable (Samples.request [Samples.adjIdfc; Samples.adjNoSummary]) []
                  Samples.emptyWorld
     = (Ok (respond 500 (Failure "Error creating offers" (TypeError "match"))),
        Samples.emptyWorld).
Proof. repeat split; vm_compute; reflexivity. Qed.

(** C5, amended.  For a usable adjustment whose [summary] and whose
    contributor's [payment_instrument] list are present, [toOffer] returns
    a record and throws nothing, whatever else is missing: without
    [offer_txn_limits], or without the field in it, the amount is 0;
    without [banks] every entry has the empty bank list; a summary without
    the pattern gives the percentage 0. *)
Theorem toOffer_defaults (m : gmap string Contributors.t) (adj : Adjustment.t)
    (details : OfferDetails.t) (id : string) (contributors : Contributors.t)
    (summary : string) (instruments : list string) :
  Adjustment.offer_details adj = Some details ->
  OfferDetails.adjustment_id details = Some id ->
  m !! id = Some contributors ->
  OfferDetails.summary details = Some summary ->
  Contributors.payment_instrument contributors = Some instruments ->
  exists o,
    Normalizer.toOffer m adj = Ok (Some o)
    /\ (OfferDetails.offer_txn_limits details ≫= TxnLimits.min_txn_value = None ->
        Offer.minTrxnValue o = Fin 0)
    /\ (OfferDetails.offer_txn_limits details ≫= TxnLimits.max_discount_per_txn = None ->
        Offer.maxDiscount o = Fin 0)
    /\ (Contributors.banks contributors = None ->
        forall pi, pi ∈ Offer.paymentInstruments o -> PaymentInstrument.banks pi = [])
    /\ (PatternSpec.NoOccurrence summary -> Offer.discountPercentage o = Fin 0).
Proof.
  intros Hd Hid Hc Hs Hp. unfold Normalizer.toOffer, Normalizer.expandInstruments.
  rewrite Hd, Hid, Hc, Hs, Hp. simpl. eexists. split; [reflexivity |]. simpl.
  repeat split.
  - intros ->. reflexivity.
  - intros ->. reflexivity.
  - intros -> pi Hpi. apply list_elem_of_In, in_map_iff in Hpi as (i & <- & _). reflexivity.
  - intros Hno. destruct (parseSummaryForPercentage_cases summary)
      as [(pre & ds & post & [Hocc _] & _) | [_ ->]]; [| reflexivity].
    now apply Hno in Hocc.
Qed.

Lemma toOffer_defaults_witness :
  exists o,
    Normalizer.toOffer (Normalizer.contributorsMap (Samples.data [])) Samples.adjUpi
    = Ok (Some o)
    /\ Offer.minTrxnValue o = Fin 0 /\ Offer.maxDiscount o = Fin 0
    /\ (forall pi, pi ∈ Offer.paymentInstruments o -> PaymentInstrument.banks pi = []).
Proof.
  destruct (toOffer_defaults (Normalizer.contributorsMap (Samples.data [])) Samples.adjUpi
              (Samples.details "FPO2" (Some "Flat ₹100 cashback on UPI") None None)
              "FPO2" (Contributors.mk (Some ["UPI"]) None)
              "Flat ₹100 cashback on UPI" ["UPI"]
              eq_refl eq_refl ltac:(vm_compute; reflexivity) eq_refl eq_refl)
    as (o & Ho & Hmin & Hmax & Hbanks & _).
  exists o. split; [exact Ho |].
  split; [exact (Hmin eq_refl) |]. split; [exact (Hmax eq_refl) |]. exact (Hbanks eq_refl).
Defined.

(** When every usable adjustment has its [summary] and its contributor's
    [payment_instrument] list, the normalizer returns candidates. *)
Lemma process_total (m : gmap string Contributors.t) (l : list Adjustment.t) :
  (forall adj details id contributors,
      adj ∈ l ->
      Adjustment.offer_details adj = Some details ->
      OfferDetails.adjustment_id details = Some id ->
      m !! id = Some contributors ->
      is_Some (OfferDetails.summary details)
      /\ is_Some (Contributors.payment_instrument contributors)) ->
  exists offers, Normalizer.process m l = Ok offers.
Proof.
  intros H. unfold Normalizer.process.
  destruct (mapM_Ok_intro (Normalizer.toOffer m) (List.filter Normalizer.applicable l))
    as [mapped ->]; [| simpl; eauto].
  intros adj Hadj. apply list_elem_of_In, filter_In in Hadj as [Hadj Happ].
  apply list_elem_of_In in Hadj.
  destruct (applicable_inv _ Happ) as (details & Hd & _).
  unfold Normalizer.toOffer. rewrite Hd.
  destruct (OfferDetails.adjustment_id details) as [id|] eqn:Hid; [| eauto].
  destruct (m !! id) as [c|] eqn:Hc; [| eauto].
  destruct (H adj details id c Hadj Hd Hid Hc) as [[summary Hs] [instruments Hp]].
  rewrite Hs. unfold Normalizer.expandInstruments. rewrite Hp. simpl. eauto.
Qed.

(** ** Ordered inserts under the unique index *)

Section Inserts.

(** Where an ordered insert stops: the documents before the colliding one
    are in, the colliding one and those after it are not. *)
Lemma insertOrdered_duplicate (docs coll coll' : list Offer.t) (id : string) :
  Store.insertOrdered coll docs = (Throw (DuplicateKey id), coll') ->
  exists pre d post,
    docs = pre ++ d :: post
    /\ Offer.adjustmentId d = id
    /\ id ∈ Store.ids (coll ++ pre)
    /\ coll' = coll ++ pre.
Proof.
  revert coll. induction docs as [|d ds IH]; intros coll; simpl; [discriminate |].
  case_bool_decide as Hdup.
  - intros [= <- <-]. exists [], d, ds. rewrite app_nil_r. auto.
  - intros H. destruct (IH _ H) as (pre & d' & post & -> & Hid & Hin & ->).
    exists (d :: pre), d', post. rewrite <- !app_assoc in *. auto.
Qed.

Lemma insertOrdered_throws (docs coll coll' : list Offer.t) (e : exn) :
  Store.insertOrdered coll docs = (Throw e, coll') -> exists id, e = DuplicateKey id.
Proof.
  revert coll. induction docs as [|d ds IH]; intros coll; simpl; [discriminate |].
  case_bool_decide as Hdup; [intros [= <- _]; eauto | apply IH].
Qed.

Lemma insertOrdered_fresh (docs coll : list Offer.t) :
  NoDup (Store.ids docs) ->
  (forall d, d ∈ docs -> Offer.adjustmentId d ∉ Store.ids coll) ->
  Store.insertOrdered coll docs = (Ok tt, coll ++ docs).
Proof.
  revert coll. induction docs as [|d ds IH]; intros coll Hnd Hfresh; simpl.
  - now rewrite app_nil_r.
  - apply NoDup_cons in Hnd as [Hd Hnd].
    rewrite bool_decide_eq_false_2 by (apply Hfresh; left).
    rewrite IH; [now rewrite <- app_assoc | assumption |].
    intros x Hx. unfold Store.ids. rewrite map_app. simpl.
    intros Hin. apply elem_of_app in Hin as [Hin | Hin].
    + apply (Hfresh x); [now right | exact Hin].
    + apply list_elem_of_singleton in Hin. apply Hd.
      rewrite <- Hin. apply list_elem_of_In, in_map, list_elem_of_In, Hx.
Qed.

Lemma find_invalid_none (docs : list Offer.t) :
  Forall (fun o => Offer.validate o = true) docs ->
  List.find (fun d => negb (Offer.validate d)) docs = None.
Proof.
  induction 1 as [|d ds Hd _ IH]; simpl; [reflexivity |]. now rewrite Hd.
Qed.

Lemma notStored_fresh (coll offers : list Offer.t) :
  (forall o, o ∈ offers -> Offer.adjustmentId o ∉ Store.ids coll) ->
  StoreSpec.notStored coll offers = offers.
Proof.
  intros H. unfold StoreSpec.notStored. induction offers as [|o os IH]; simpl; [reflexivity |].
  rewrite bool_decide_eq_false_2 by (apply H; left). simpl. f_equal.
  apply IH. intros x Hx. apply H. now right.
Qed.

Lemma notStored_stored (coll offers : list Offer.t) :
  StoreSpec.notStored (coll ++ offers) offers = [].
Proof.
  unfold StoreSpec.notStored.
  assert (forall l, (forall o, o ∈ l -> Offer.adjustmentId o ∈ Store.ids (coll ++ offers)) ->
                    List.filter (fun o => negb (bool_decide
                       (Offer.adjustmentId o ∈ Store.ids (coll ++ offers)))) l = []) as Hall.
  { induction l as [|o os IH]; intros H; simpl; [reflexivity |].
    rewrite bool_decide_eq_true_2 by (apply H; left). simpl.
    apply IH. intros x Hx. apply H. now right. }
  apply Hall. intros o Ho. unfold Store.ids. rewrite map_app.
  apply elem_of_app. right. apply list_elem_of_In, in_map, list_elem_of_In, Ho.
Qed.

(** The normalizer raises type errors only. *)
Lemma process_throws (m : gmap string Contributors.t) (l : list Adjustment.t) (e : exn) :
  Normalizer.process m l = Throw e -> exists reading, e = TypeError reading.
Proof.
  induction l as [|adj l IH]; [discriminate |].
  rewrite process_cons. destruct (Normalizer.applicable adj); [| exact IH].
  destruct (Normalizer.toOffer m adj) as [r|e'] eqn:Hto; simpl.
  - destruct (Normalizer.process m l) as [rest|e'']; simpl; [discriminate |].
    intros [= <-]. now apply IH.
  - intros [= <-]. revert Hto. unfold Normalizer.toOffer, Normalizer.expandInstruments.
    repeat (match goal with
            | |- context [match ?x with _ => _ end] => destruct x; simpl
            end; try discriminate);
      intros [= <-]; eauto.
Qed.

End Inserts.

(** C6 as stated fails.  Three candidates, of which another request stores
    the second between the existence check and the insert: the insert is
    rejected on [FPO2], the request answers 500, and the third candidate,
    [FPO5], is not inserted. *)
Lemma duplicate_key_fails_request :
  createOffers Storage.reliable (Samples.request [Samples.adjIdfc; Samples.adjUpi; Samples.adjHuge])
               [Samples.offerUpiOther] Samples.emptyWorld
  = (Ok (respond 500 (Failure "Error creating offers" (DuplicateKey "FPO2"))),
     mkWorld [Samples.offerUpiOther; Samples.offerIdfc]
             [OpFindByIds ["FPO1"; "FPO2"; "FPO5"];
              OpInsertMany [Samples.offerIdfc; Samples.offerUpi; Samples.offerHuge]])
  /\ "FPO5" ∉ Store.ids [Samples.offerUpiOther; Samples.offerIdfc].
Proof.
  split; [vm_compute; reflexivity |].
  intros H. vm_compute in H. repeat (apply elem_of_cons in H as [H | H]; [discriminate |]).
  inversion H.
Qed.

(** C6, amended.  When the insert of an ingestion is rejected with a
    duplicate-key error, the request answers 500 with that error; the
    candidates that precede the rejected one among those not found by the
    existence check are in the collection, and neither the rejected one
    nor any that follows it was inserted. *)
Theorem duplicate_key_aborts_batch (req : IngestRequest) (others : list Offer.t) (w w' : world)
    (code : nat) (message id : string) :
  createOffers Storage.reliable req others w = (Ok (respond code (Failure message (DuplicateKey id))), w') ->
  code = 500%nat
  /\ exists response offers pre d post,
       flipkartOfferApiResponse req = Some response
       /\ Normalizer.offersToProcess (Normalizer.apiData response) = Ok offers
       /\ StoreSpec.notStored (collection w) offers = pre ++ d :: post
       /\ Offer.adjustmentId d = id
       /\ collection w' = collection (Store.commitOthers others w).2 ++ pre.
Proof.
  destruct req as [[response|]]; [| rewrite createOffers_missing; discriminate].
  destruct (Normalizer.offersToProcess (Normalizer.apiData response)) as [offers|e] eqn:Hn.
  2:{ rewrite (createOffers_throw _ _ _ _ _ Hn). intros [= _ _ He _].
      apply process_throws in Hn as [reading ->]. discriminate. }
  destruct offers as [|o0 offers]; [rewrite (createOffers_none _ _ _ _ Hn); discriminate |].
  rewrite (createOffers_some _ _ _ _ Hn) by discriminate. cbv zeta.
  set (new := StoreSpec.notStored _ _).
  destruct (0 <? length new)%nat; [| discriminate].
  unfold Store.insertMany. destruct (List.find _ new); [discriminate |].
  cbn [collection calls].
  destruct (Store.insertOrdered _ new) as [[[]|e] coll'] eqn:Hins; [discriminate |].
  intros [= <- _ -> <-]. split; [reflexivity |].
  apply insertOrdered_duplicate in Hins as (pre & d & post & Hnew & Hid & _ & ->).
  exists response, (o0 :: offers), pre, d, post. repeat split; auto.
Qed.

Lemma duplicate_key_aborts_batch_witness :
  exists response offers pre d post,
    flipkartOfferApiResponse
      (Samples.request [Samples.adjIdfc; Samples.adjUpi; Samples.adjHuge]) = Some response
    /\ Normalizer.offersToProcess (Normalizer.apiData response) = Ok offers
    /\ StoreSpec.notStored [] offers = pre ++ d :: post
    /\ Offer.adjustmentId d = "FPO2"
    /\ [Samples.offerUpiOther; Samples.offerIdfc] = [Samples.offerUpiOther] ++ pre.
Proof.
  refine (proj2 (duplicate_key_aborts_batch
                   (Samples.request [Samples.adjIdfc; Samples.adjUpi; Samples.adjHuge])
                   [Samples.offerUpiOther] Samples.emptyWorld
                   (mkWorld [Samples.offerUpiOther; Samples.offerIdfc]
                      [OpFindByIds ["FPO1"; "FPO2"; "FPO5"];
                       OpInsertMany [Samples.offerIdfc; Samples.offerUpi; Samples.offerHuge]])
                   500 "Error creating offers" "FPO2" _)).
  vm_compute. reflexivity.
Defined.

(** C2 as stated fails.  The normalizer yields 2 candidates, the second
    without [title]; against the empty collection the first ingestion is
    rejected by the schema and answers 500, creating nothing. *)
Lemma first_ingestion_rejected :
  Normalizer.offersToProcess (Samples.data [Samples.adjIdfc; Samples.adjNoTitle])
  = Ok [Samples.offerIdfc;
        Offer.mk "FPO2" None "Flat ₹100 cashback on UPI" (Some "INSTANT_DISCOUNT")
                 [PaymentInstrument.mk "UPI" []] (Fin 0) (Fin 0) (Fin 0)]
  /\ (createOffers Storage.reliable (Samples.request [Samples.adjIdfc; Samples.adjNoTitle]) []
                   Samples.emptyWorld).1
     = Ok (respond 500 (Failure "Error creating offers" (ValidationError "FPO2")))
  /\ collection (createOffers Storage.reliable (Samples.request [Samples.adjIdfc; Samples.adjNoTitle]) []
                              Samples.emptyWorld).2 = [].
Proof. repeat split; vm_compute; reflexivity. Qed.

(** The same happens when two candidates share their [adjustmentId]: the
    second insert collides with the first. *)
Lemma first_ingestion_collides :
  createOffers Storage.reliable (Samples.request [Samples.adjIdfc; Samples.adjIdfc]) [] Samples.emptyWorld
  = (Ok (respond 500 (Failure "Error creating offers" (DuplicateKey "FPO1"))),
     mkWorld [Samples.offerIdfc]
             [OpFindByIds ["FPO1"; "FPO1"];
              OpInsertMany [Samples.offerIdfc; Samples.offerIdfc]]).
Proof. vm_compute. reflexivity. Qed.

(** C2, amended.  When the N candidates of a payload have pairwise distinct
    ids and pass the schema's validation, and none of their ids is in the
    collection, a first ingestion that runs alone reports N identified and
    N created and appends the candidates, and a second one reports N
    identified and 0 created and leaves the collection as the first left
    it. *)
Theorem ingest_twice (req : IngestRequest) (response : ApiResponse.t)
    (offers : list Offer.t) (w : world) :
  flipkartOfferApiResponse req = Some response ->
  Normalizer.offersToProcess (Normalizer.apiData response) = Ok offers ->
  NoDup (Store.ids offers) ->
  Forall (fun o => Offer.validate o = true) offers ->
  (forall o, o ∈ offers -> Offer.adjustmentId o ∉ Store.ids (collection w)) ->
  exists code1 code2 w1 w2,
    createOffers Storage.reliable req [] w
    = (Ok (respond code1 (Counts (length offers) (length offers))), w1)
    /\ createOffers Storage.reliable req [] w1 = (Ok (respond code2 (Counts (length offers) 0)), w2)
    /\ collection w1 = collection w ++ offers
    /\ collection w2 = collection w1.
Proof.
  intros Hreq Hn Hnd Hvalid Hfresh. destruct req as [r]. simpl in Hreq. subst r.
  destruct offers as [|o0 offers].
  - exists 200%nat, 200%nat, w, w. rewrite (createOffers_none _ _ _ _ Hn).
    rewrite app_nil_r. auto.
  - set (os := o0 :: offers) in *.
    set (w1 := mkWorld (collection w ++ os)
                 ((calls w ++ [OpFindByIds (map Offer.adjustmentId os)]) ++ [OpInsertMany os])).
    set (w2 := mkWorld (collection w1)
                 (calls w1 ++ [OpFindByIds (map Offer.adjustmentId os)])).
    exists 201%nat, 201%nat, w1, w2.
    assert (createOffers Storage.reliable (mkIngest (Some response)) [] w
            = (Ok (respond 201 (Counts (length os) (length os))), w1)) as H1.
    { rewrite (createOffers_some _ _ _ _ Hn) by discriminate. cbv zeta.
      rewrite commitOthers_nil, notStored_fresh by assumption.
      change (0 <? length os)%nat with true. cbv iota.
      unfold Store.insertMany. rewrite find_invalid_none by assumption.
      cbn [snd collection calls]. now rewrite insertOrdered_fresh. }
    assert (createOffers Storage.reliable (mkIngest (Some response)) [] w1
            = (Ok (respond 201 (Counts (length os) 0)), w2)) as H2.
    { rewrite (createOffers_some _ _ _ _ Hn) by discriminate. cbv zeta.
      rewrite commitOthers_nil. change (collection w1) with (collection w ++ os).
      rewrite notStored_stored. reflexivity. }
    auto.
Qed.

Lemma ingest_twice_witness :
  exists code1 code2 w1 w2,
    createOffers Storage.reliable (Samples.request [Samples.adjIdfc; Samples.adjWaiver; Samples.adjUpi]) []
                 Samples.emptyWorld
    = (Ok (respond code1 (Counts 2 2)), w1)
    /\ createOffers Storage.reliable (Samples.request [Samples.adjIdfc; Samples.adjWaiver; Samples.adjUpi]) [] w1
       = (Ok (respond code2 (Counts 2 0)), w2)
    /\ collection w1 = [Samples.offerIdfc; Samples.offerUpi]
    /\ collection w2 = collection w1.
Proof.
  apply (ingest_twice (Samples.request [Samples.adjIdfc; Samples.adjWaiver; Samples.adjUpi])
           (Samples.envelope [Samples.adjIdfc; Samples.adjWaiver; Samples.adjUpi])
           [Samples.offerIdfc; Samples.offerUpi] Samples.emptyWorld).
  - reflexivity.
  - vm_compute. reflexivity.
  - repeat constructor; vm_compute; intros H;
      repeat (apply elem_of_cons in H as [H | H]; [discriminate |]); inversion H.
  - repeat constructor.
  - intros o _ H. inversion H.
Defined.

(** ** [getHighestDiscount] *)

Section Discounts.
Local Open Scope Q_scope.

Lemma Qltb_lt (a b : Q) : JsNum.Qltb a b = true <-> a < b.
Proof.
  unfold JsNum.Qltb. rewrite negb_true_iff. split.
  - intros H. apply Qnot_le_lt. intros Hle. apply Qle_bool_iff in Hle. congruence.
  - intros H. destruct (Qle_bool b a) eqn:Hle; [| reflexivity].
    apply Qle_bool_iff in Hle. exfalso. exact (Qlt_not_le _ _ H Hle).
Qed.


(** *** The order of the numbers *)

Lemma leb_refl (a : jsnum) : a <> NaN -> JsNum.leb a a = true.
Proof.
  destruct a as [| |x|]; [congruence | reflexivity | | reflexivity].
  intros _. cbn [JsNum.leb]. apply Qle_bool_iff, Qle_refl.
Qed.

Lemma leb_trans (a b c : jsnum) :
  JsNum.leb a b = true -> JsNum.leb b c = true -> JsNum.leb a c = true.
Proof.
  destruct a as [| |x|], b as [| |y|], c as [| |z|]; cbn [JsNum.leb];
    try discriminate; try reflexivity.
  rewrite !Qle_bool_iff. apply Qle_trans.
Qed.

Lemma leb_false (a b : jsnum) :
  a <> NaN -> b <> NaN -> JsNum.leb a b = false -> JsNum.leb b a = true.
Proof.
  destruct a as [| |x|], b as [| |y|]; cbn [JsNum.leb];
    try congruence; try reflexivity.
  intros _ _ H. apply Qle_bool_iff, Qlt_le_weak, Qnot_le_lt.
  intros Hle. apply Qle_bool_iff in Hle. congruence.
Qed.

Lemma ltb_false_leb (a b : jsnum) :
  a <> NaN -> b <> NaN -> JsNum.ltb a b = false -> JsNum.leb b a = true.
Proof.
  destruct a as [| |x|], b as [| |y|]; cbn [JsNum.ltb JsNum.leb];
    try congruence; try reflexivity.
  intros _ _ H. unfold JsNum.Qltb in H. now apply negb_false_iff in H.
Qed.

Lemma max_NaN_r (a : jsnum) : JsNum.max a NaN = NaN.
Proof. now destruct a. Qed.

(** [Math.max] of two numbers is the greater one. *)
Lemma max_spec (a b : jsnum) :
  a <> NaN -> b <> NaN ->
  (JsNum.max a b = b /\ JsNum.leb a b = true)
  \/ (JsNum.max a b = a /\ JsNum.leb b a = true).
Proof.
  intros Ha Hb.
  assert (JsNum.max a b = if JsNum.leb a b then b else a) as ->
      by (destruct a, b; try congruence; reflexivity).
  destruct (JsNum.leb a b) eqn:Hle; [now left | right].
  split; [reflexivity | now apply leb_false].
Qed.

(** *** The fold of [reduce] *)

Section Fold.
Variable f : Offer.t -> jsnum.

Lemma fold_max_from_NaN (l : list Offer.t) :
  fold_left (fun acc o => JsNum.max acc (f o)) l NaN = NaN.
Proof. induction l as [|o l IH]; [reflexivity | exact IH]. Qed.

(** One [NaN] among the values makes the result [NaN]. *)
Lemma fold_max_NaN (l : list Offer.t) (s : jsnum) (o : Offer.t) :
  In o l -> f o = NaN -> fold_left (fun acc o => JsNum.max acc (f o)) l s = NaN.
Proof.
  revert s. induction l as [|x l IH]; intros s; [intros [] |].
  intros [-> | Hin] Hf; cbn [fold_left].
  - rewrite Hf, max_NaN_r. apply fold_max_from_NaN.
  - now apply IH.
Qed.

(** Without [NaN], the result [r] is the seed or one of the values, and
    bounds them all. *)
Lemma fold_max_spec (l : list Offer.t) (s : jsnum) :
  s <> NaN ->
  (forall o, In o l -> f o <> NaN) ->
  exists r,
    fold_left (fun acc o => JsNum.max acc (f o)) l s = r
    /\ r <> NaN
    /\ JsNum.leb s r = true
    /\ (forall o, In o l -> JsNum.leb (f o) r = true)
    /\ (r = s \/ exists o, In o l /\ r = f o).
Proof.
  revert s. induction l as [|x l IH]; intros s Hs Hf; cbn [fold_left].
  - exists s. split; [reflexivity |]. split; [exact Hs |]. split; [now apply leb_refl |].
    split; [intros o [] | now left].
  - assert (f x <> NaN) as Hx by (apply Hf; now left).
    assert (forall o, In o l -> f o <> NaN) as Hf' by (intros o Ho; apply Hf; now right).
    destruct (max_spec s (f x) Hs Hx) as [[Hm Hle] | [Hm Hle]]; rewrite Hm.
    + destruct (IH (f x) Hx Hf') as (r & Hrun & Hr & Hseed & Hall & Hex).
      exists r. split; [exact Hrun |].
      split; [exact Hr |]. split; [now apply (leb_trans _ (f x)) |]. split.
      * intros o [<- | Ho]; [exact Hseed | now apply Hall].
      * right. destruct Hex as [He | (o & Ho & He)].
        -- exists x. split; [now left | exact He].
        -- exists o. split; [now right | exact He].
    + destruct (IH s Hs Hf') as (r & Hrun & Hr & Hseed & Hall & Hex).
      exists r. split; [exact Hrun |].
      split; [exact Hr |]. split; [exact Hseed |]. split.
      * intros o [<- | Ho]; [now apply (leb_trans _ s) | now apply Hall].
      * destruct Hex as [He | (o & Ho & He)]; [now left |].
        right. exists o. split; [now right | exact He].
Qed.

(** The values hold a [NaN], or none. *)
Lemma some_NaN_dec (l : list Offer.t) :
  (exists o, In o l /\ f o = NaN) \/ (forall o, In o l -> f o <> NaN).
Proof.
  induction l as [|x l [(o & Ho & Hf) | IH]].
  - right. intros o [].
  - left. exists o. split; [now right | exact Hf].
  - destruct (f x) eqn:Hx;
      try (right; intros o [<- | Ho]; [rewrite Hx; discriminate | now apply IH]).
    left. exists x. split; [now left | exact Hx].
Qed.

(** More values to choose from never give less. *)
Lemma fold_max_mono (l1 l2 : list Offer.t) (s : jsnum) :
  s <> NaN ->
  (forall o, In o l1 -> In o l2) ->
  JsNum.leb (fold_left (fun acc o => JsNum.max acc (f o)) l1 s)
            (fold_left (fun acc o => JsNum.max acc (f o)) l2 s) = true
  \/ fold_left (fun acc o => JsNum.max acc (f o)) l2 s = NaN.
Proof.
  intros Hs Hsub.
  destruct (some_NaN_dec l2) as [(o & Ho & Hf) | Hf2];
    [right; now apply (fold_max_NaN l2 s o) | left].
  destruct (fold_max_spec l2 s Hs Hf2) as (r2 & -> & _ & Hseed2 & Hall2 & _).
  destruct (fold_max_spec l1 s Hs) as (r1 & -> & _ & _ & _ & [-> | (o & Ho & ->)]);
    [intros o Ho; apply Hf2; now apply Hsub | exact Hseed2 |].
  apply Hall2. now apply Hsub.
Qed.

End Fold.

(** *** What one offer is worth *)

Lemma ofSign_not_NaN (z : Z) : z <> 0%Z -> JsNum.ofSign z <> NaN.
Proof. now destruct z. Qed.

Lemma ltb_not_NaN (a b : jsnum) : JsNum.ltb a b = true -> a <> NaN /\ b <> NaN.
Proof. destruct a, b; cbn [JsNum.ltb]; intros H; split; congruence. Qed.

(** The percentage of an amount is [NaN] for one pairing only: the amount
    0 with the percentage [Infinity]. *)
Lemma percentage_NaN (n pct : jsnum) :
  n <> NaN ->
  JsNum.ltb (Fin 0) pct = true ->
  JsNum.div (JsNum.mul n pct) (Fin 100) = NaN ->
  pct = PosInf /\ exists a, n = Fin a /\ a == 0.
Proof.
  intros Hn Hpct. destruct pct as [| |p|]; cbn [JsNum.ltb] in Hpct; try discriminate.
  - apply Qltb_lt in Hpct.
    assert (Z.sgn (Qnum p) = 1%Z) as Hsgn by (unfold Qlt in Hpct; simpl in Hpct; lia).
    destruct n as [| |a|]; [congruence | | |].
    + cbn [JsNum.mul JsNum.sgn]. rewrite Hsgn. discriminate.
    + cbn [JsNum.mul]. pose proof (round_not_NaN (a * p)) as Hr.
      destruct (Double.round (a * p)) as [| |x|]; [congruence | discriminate | | discriminate].
      cbn [JsNum.div]. change (Qeq_bool 100 0) with false. cbv iota.
      intros H. now apply round_not_NaN in H.
    + cbn [JsNum.mul JsNum.sgn]. rewrite Hsgn. discriminate.
  - destruct n as [| |a|]; [congruence | discriminate | | discriminate].
    intros H. split; [reflexivity |]. exists a. split; [reflexivity |].
    destruct a as [[|na|na] da]; [reflexivity | discriminate H | discriminate H].
Qed.

(** The callback computes [NaN] for that pairing only. *)
Lemma currentDiscount_NaN (n : jsnum) (o : Offer.t) :
  n <> NaN ->
  currentDiscount n o = NaN ->
  Offer.discountPercentage o = PosInf /\ exists a, n = Fin a /\ a == 0.
Proof.
  intros Hn. unfold currentDiscount.
  destruct (JsNum.ltb (Fin 0) (Offer.discountPercentage o)) eqn:Hpct.
  - destruct (JsNum.ltb (Fin 0) (Offer.maxDiscount o)) eqn:Hcap; cbn [andb].
    + destruct (JsNum.ltb (Offer.maxDiscount o) _);
        [intros H; now apply ltb_not_NaN in Hcap | now apply percentage_NaN].
    + now apply percentage_NaN.
  - destruct (JsNum.ltb (Fin 0) (Offer.maxDiscount o)) eqn:Hcap; [| discriminate].
    intros H. now apply ltb_not_NaN in Hcap.
Qed.



Lemma matches_without_instrument (bank : string) (n : jsnum) (instrument : option string)
    (o : Offer.t) :
  Store.matches bank n instrument o = true -> Store.matches bank n None o = true.
Proof.
  unfold Store.matches. rewrite !andb_true_iff. tauto.
Qed.

(** *** The handler *)

(** On a query that passes validation, while the storage layer serves the
    call. *)
Lemma getHighestDiscount_valid (q : Query.t) (w : world) (n : jsnum) (bank : string) :
  Number (Query.amountToPay q) = n -> n <> NaN ->
  Query.bankName q = Some bank -> bank <> "" ->
  let instrument :=
    if truthy (Query.paymentInstrument q) then Query.paymentInstrument q else None in
  getHighestDiscount Storage.reliable q w
  = (Ok (respond 200 (HighestDiscountAmount
           (highestDiscountAmount n
              (List.filter (Store.matches bank n instrument) (collection w))))),
     mkWorld (collection w) (calls w ++ [OpFindQuery bank n instrument])).
Proof.
  intros Hn Hnan Hb Hne.
  unfold getHighestDiscount, Handler.tryCatch, Handler.bind, Handler.ret, Store.findQuery.
  rewrite Hn, Hb. cbn [truthy]. rewrite (proj2 (String.eqb_neq bank "") Hne).
  destruct n; [congruence | reflexivity | reflexivity | reflexivity].
Qed.

(** On a query that fails validation, whatever the storage layer does. *)
Lemma getHighestDiscount_invalid (storage : Storage.t) (q : Query.t) (w : world) :
  Number (Query.amountToPay q) = NaN \/ truthy (Query.bankName q) = false ->
  getHighestDiscount storage q w = (Ok invalidQuery, w).
Proof.
  intros H.
  unfold getHighestDiscount, Handler.tryCatch, Handler.bind, Handler.ret, Store.findQuery.
  destruct H as [-> | ->]; [reflexivity |].
  now destruct (JsNum.isNaN (Number (Query.amountToPay q))).
Qed.

Lemma truthy_Some (v : option string) :
  truthy v = true <-> exists s, v = Some s /\ s <> "".
Proof.
  destruct v as [s|]; simpl.
  - rewrite negb_true_iff, String.eqb_neq. split; [eauto | now intros (s' & [= <-] & H)].
  - split; [discriminate | now intros (s & [=] & _)].
Qed.


End Discounts.




(** The worked examples of the specification: 5% of 10000 is 500, under
    the cap; 5% of 20000 is clamped to 750; an unknown bank gives 0; an
    amount under the threshold excludes the offer. *)
Example highest_discount_examples :
  let w := mkWorld [Samples.offerIdfc] [] in
  let answer amount bank instrument :=
    (getHighestDiscount Storage.reliable (Query.mk (Some amount) (Some bank) instrument) w).1 in
  answer "10000" "IDFC" (Some "CREDIT") = Ok (respond 200 (HighestDiscountAmount (Fin 500)))
  /\ (exists r, answer "20000" "IDFC" (Some "CREDIT")
                = Ok (respond 200 (HighestDiscountAmount (Fin r))) /\ (r == 750)%Q)
  /\ answer "10000" "UNKNOWN" None = Ok (respond 200 (HighestDiscountAmount (Fin 0)))
  /\ answer "4999" "IDFC" None = Ok (respond 200 (HighestDiscountAmount (Fin 0))).
Proof.
  cbv zeta. split; [| split; [| split]].
  - vm_compute. reflexivity.
  - exists 750%Q. split; [vm_compute; reflexivity | reflexivity].
  - vm_compute. reflexivity.
  - vm_compute. reflexivity.
Qed.

(** Numbers are rounded as JavaScript rounds them: the amount
    ["4999.9999999999999999"] is 5000 and reaches the threshold of 5000;
    ["1e400"] is [Infinity], and so is 5% of it without a cap; 5% of 1 is
    the binary64 number nearest to 1/20. *)
Example rounded_amounts :
  let answer amount offer :=
    (getHighestDiscount Storage.reliable (Query.mk (Some amount) (Some "IDFC") None)
       (mkWorld [offer] [])).1 in
  Number (Some "4999.9999999999999999") = Fin 5000
  /\ answer "4999.9999999999999999" Samples.offerIdfc
     = Ok (respond 200 (HighestDiscountAmount (Fin 250)))
  /\ Number (Some "1e400") = PosInf
  /\ answer "1e400" Samples.offerIdfc
     = Ok (respond 200 (HighestDiscountAmount (Fin 750)))
  /\ answer "1e400" Samples.offerNegative = Ok (respond 200 (HighestDiscountAmount PosInf))
  /\ answer "1" Samples.offerNegative
     = Ok (respond 200 (HighestDiscountAmount (Fin (3602879701896397 # 72057594037927936)))).
Proof. cbv zeta. repeat split; vm_compute; reflexivity. Qed.

(** C10.  The handler answers 400 exactly when [Number(amountToPay)] is
    [NaN] or [bankName] is absent or empty, and then touches nothing; the
    empty string is the number 0, ["0"] and ["-5"] are numbers too; and
    every amount that is not [NaN], zero and negative ones included, goes
    through the same selection and scoring and is answered with 200. *)
Theorem client_error_branch :
  (forall q w,
      exists response w',
        getHighestDiscount Storage.reliable q w = (Ok response, w')
        /\ (status response = 400%nat
            <-> Number (Query.amountToPay q) = NaN \/ truthy (Query.bankName q) = false)
        /\ (status response = 400%nat -> response = invalidQuery /\ w' = w))
  /\ Number (Some "") = Fin 0
  /\ Number (Some "0") = Fin 0
  /\ Number (Some "-5") = Fin (-5)
  /\ (forall q w n bank,
         Number (Query.amountToPay q) = n ->
         n <> NaN ->
         Query.bankName q = Some bank ->
         bank <> "" ->
         (getHighestDiscount Storage.reliable q w).1
         = Ok (respond 200 (HighestDiscountAmount
                 (highestDiscountAmount n
                    (List.filter
                       (Store.matches bank n
                          (if truthy (Query.paymentInstrument q)
                           then Query.paymentInstrument q else None))
                       (collection w)))))).
Proof.
  split; [| split; [| split; [| split]]].
  2-4: vm_compute; reflexivity.
  - intros q w.
    unfold getHighestDiscount, Handler.tryCatch, Handler.bind, Handler.ret, Store.findQuery.
    destruct (Number (Query.amountToPay q)) as [| |a|] eqn:Hn; cbn [JsNum.isNaN orb];
      try (exists invalidQuery, w; split; [reflexivity |]; split; [tauto | auto]);
      (destruct (Query.bankName q) as [bank|] eqn:Hb; cbn [truthy negb];
       [ destruct (String.eqb bank "") eqn:He; cbn [negb];
         [ exists invalidQuery, w; split; [reflexivity |]; split; [tauto | auto]
         | eexists _, _; split; [reflexivity |]; cbn [status]; split;
           [ split; [discriminate | intros [H | H]; discriminate] | discriminate ] ]
       | exists invalidQuery, w; split; [reflexivity |]; split; [tauto | auto] ]).
  - intros q w n bank Hn Hnan Hb Hne.
    unfold getHighestDiscount, Handler.tryCatch, Handler.bind, Handler.ret, Store.findQuery.
    rewrite Hn, Hb. cbn [truthy]. rewrite (proj2 (String.eqb_neq bank "") Hne).
    destruct n; [congruence | reflexivity | reflexivity | reflexivity].
Qed.

(** C10, at the query [?amountToPay=&bankName=HDFC] and at a negative
    amount: both are answered 200. *)
Lemma client_error_branch_witness :
  (getHighestDiscount Storage.reliable (Query.mk (Some "") (Some "HDFC") None)
                      (mkWorld [Samples.offerIdfc] [])).1
  = Ok (respond 200 (HighestDiscountAmount (Fin 0)))
  /\ (getHighestDiscount Storage.reliable (Query.mk (Some "-5") (Some "HDFC") None)
                         (mkWorld [Samples.offerIdfc] [])).1
     = Ok (respond 200 (HighestDiscountAmount (Fin 0))).
Proof.
  destruct client_error_branch as (_ & _ & _ & _ & Hscore).
  split.
  - rewrite (Hscore (Query.mk (Some "") (Some "HDFC") None) (mkWorld [Samples.offerIdfc] [])
               (Fin 0) "HDFC"); [reflexivity | vm_compute; reflexivity | discriminate
                                 | reflexivity | discriminate].
  - rewrite (Hscore (Query.mk (Some "-5") (Some "HDFC") None) (mkWorld [Samples.offerIdfc] [])
               (Fin (-5)) "HDFC"); [reflexivity | vm_compute; reflexivity | discriminate
                                    | reflexivity | discriminate].
Defined.

(** A flat offer without threshold is granted for the amount 0: the empty
    [amountToPay] is scored like any other. *)
Example empty_amount_scored :
  (getHighestDiscount Storage.reliable (Query.mk (Some "") (Some "HDFC") None)
     (mkWorld [Offer.mk "FLAT" (Some "t") "Flat ₹100 off" (Some "k")
                        [PaymentInstrument.mk "CREDIT" ["HDFC"]] (Fin 0) (Fin 100) (Fin 0)] [])).1
  = Ok (respond 200 (HighestDiscountAmount (Fin 100))).
Proof. vm_compute. reflexivity. Qed.

(** A percentage offer without cap ([maxDiscount = 0]) is worth the
    percentage of the amount, in the specification's rule and in the
    handler. *)
Example uncapped_percentage :
  let o := Offer.mk "PCT" (Some "t") "10% off" (Some "k")
                    [PaymentInstrument.mk "CREDIT" ["HDFC"]] (Fin 0) (Fin 0) (Fin 10) in
  (QuerySpec.discount 1000 10 0 == 100)%Q
  /\ (getHighestDiscount Storage.reliable (Query.mk (Some "1000") (Some "HDFC") None)
        (mkWorld [o] [])).1
     = Ok (respond 200 (HighestDiscountAmount (Fin 100))).
Proof. cbv zeta. split; vm_compute; reflexivity. Qed.

(** * Further properties of the handlers *)

(** ** The correlation map *)

Section Correlation.
Import Normalizer CorrelationSpec.

Lemma find_all_false {A} (f : A -> bool) (l : list A) :
  (forall x, In x l -> f x = false) -> List.find f l = None.
Proof.
  induction l as [|x l IH]; intros H; simpl; [reflexivity |].
  rewrite (H x) by now left. apply IH. intros y Hy. apply H. now right.
Qed.

Lemma find_app_none {A} (f : A -> bool) (l1 l2 : list A) :
  List.find f l1 = None -> List.find f (l1 ++ l2) = List.find f l2.
Proof.
  induction l1 as [|x l1 IH]; simpl; [reflexivity |].
  destruct (f x); [discriminate | exact IH].
Qed.

Lemma addOffer_setEntry (m : gmap string Contributors.t) (offer : SectionOffer.t) :
  addOffer m offer = match entryOf offer with Some e => setEntry m e | None => m end.
Proof.
  unfold addOffer, entryOf, setEntry.
  destruct (SectionOffer.adjustment_id offer) as [id|]; [| reflexivity].
  destruct (SectionOffer.contributors offer) as [c|]; [| reflexivity].
  simpl. destruct (String.eqb id ""); reflexivity.
Qed.

Lemma fold_addOffer (os : list SectionOffer.t) (m : gmap string Contributors.t) :
  fold_left addOffer os m = fold_left setEntry (omap entryOf os) m.
Proof.
  revert m. induction os as [|o os IH]; intros m; [reflexivity |].
  cbn [fold_left omap list_omap]. rewrite addOffer_setEntry.
  destruct (entryOf o); simpl; apply IH.
Qed.

Lemma fold_addSection (secs : list (option OfferSection.t)) (m : gmap string Contributors.t) :
  fold_left addSection secs m
  = fold_left setEntry
      (flat_map (fun section =>
                   match section with
                   | Some sec => omap entryOf (default [] (OfferSection.offers sec))
                   | None => []
                   end) secs) m.
Proof.
  revert m. induction secs as [|sec secs IH]; intros m; [reflexivity |].
  cbn [fold_left flat_map]. rewrite fold_left_app, IH. f_equal.
  unfold addSection. destruct sec as [sec|]; [| reflexivity].
  destruct (OfferSection.offers sec) as [os|]; [| reflexivity].
  apply fold_addOffer.
Qed.

Lemma lookup_fold_setEntry (es : list (string * Contributors.t))
    (m : gmap string Contributors.t) (id : string) :
  fold_left setEntry es m !! id
  = match lastEntry id es with Some c => Some c | None => m !! id end.
Proof.
  induction es as [|e es IH] using rev_ind; [reflexivity |].
  rewrite fold_left_app. cbn [fold_left]. unfold setEntry at 1, lastEntry.
  rewrite rev_app_distr. cbn [rev app List.find].
  destruct (String.eqb e.1 id) eqn:He.
  - apply String.eqb_eq in He as <-. now rewrite lookup_insert_eq.
  - apply String.eqb_neq in He. rewrite lookup_insert_ne by assumption. exact IH.
Qed.

Lemma entryOf_nonempty (offer : SectionOffer.t) (e : string * Contributors.t) :
  entryOf offer = Some e -> e.1 <> "".
Proof.
  unfold entryOf. destruct (SectionOffer.adjustment_id offer) as [id|]; [| discriminate].
  destruct (SectionOffer.contributors offer) as [c|]; [| discriminate].
  destruct (String.eqb id "") eqn:He; [discriminate |].
  intros [= <-]. now apply String.eqb_neq.
Qed.

Lemma entries_nonempty (d : ApiData.t) (e : string * Contributors.t) :
  In e (entries d) -> e.1 <> "".
Proof.
  unfold entries. rewrite in_flat_map. intros ([sec|] & _ & Hin); [| destruct Hin].
  apply list_elem_of_In, list_elem_of_omap in Hin as (offer & _ & He).
  now apply (entryOf_nonempty offer).
Qed.

Lemma lastEntry_In (id : string) (es : list (string * Contributors.t)) (c : Contributors.t) :
  lastEntry id es = Some c -> In (id, c) es.
Proof.
  unfold lastEntry. destruct (List.find _ (rev es)) as [[id' c']|] eqn:Hf; [| discriminate].
  intros [= <-]. apply find_some in Hf as [Hin He]. apply String.eqb_eq in He.
  simpl in He. subst id'. now apply in_rev.
Qed.

Lemma contributorsMap_lookup (d : ApiData.t) (id : string) :
  contributorsMap d !! id = lastEntry id (entries d).
Proof.
  unfold contributorsMap. rewrite fold_addSection, lookup_fold_setEntry, lookup_empty.
  unfold entries. now destruct (lastEntry id _).
Qed.

Lemma contributorsMap_key_nonempty (d : ApiData.t) (id : string) (c : Contributors.t) :
  contributorsMap d !! id = Some c -> id <> "".
Proof.
  rewrite contributorsMap_lookup. intros H. apply lastEntry_In in H.
  now apply (entries_nonempty d (id, c)).
Qed.

End Correlation.

(** X1.  Looking an id up in the correlation map gives the contributors of
    the last entry recorded under it, in the order the sections and their
    offers are visited (and nothing when no entry has that id); the empty
    string is never a key. *)
Theorem contributorsMap_last_write_wins (d : ApiData.t) :
  (forall id,
      Normalizer.contributorsMap d !! id
      = CorrelationSpec.lastEntry id (CorrelationSpec.entries d))
  /\ (forall es1 id c es2,
         CorrelationSpec.entries d = es1 ++ (id, c) :: es2 ->
         (forall c', ~ In (id, c') es2) ->
         Normalizer.contributorsMap d !! id = Some c)
  /\ Normalizer.contributorsMap d !! "" = None.
Proof.
  split; [apply contributorsMap_lookup |]. split.
  - intros es1 id c es2 Hes Hlast. rewrite contributorsMap_lookup, Hes.
    unfold CorrelationSpec.lastEntry. rewrite rev_app_distr. cbn [rev].
    rewrite <- app_assoc. cbn [app].
    assert (List.find (fun e => String.eqb e.1 id) (rev es2) = None) as Hnone.
    { apply find_all_false. intros [id' c'] Hin. simpl. apply String.eqb_neq.
      intros ->. apply in_rev in Hin. exact (Hlast c' Hin). }
    rewrite (find_app_none _ _ _ Hnone). simpl. now rewrite String.eqb_refl.
  - destruct (Normalizer.contributorsMap d !! "") as [c|] eqn:H; [| reflexivity].
    now apply contributorsMap_key_nonempty in H.
Qed.

Lemma contributorsMap_last_write_wins_witness :
  Normalizer.contributorsMap MoreSamples.twiceRecorded !! "FPO1"
  = Some (Contributors.mk (Some ["CREDIT"]) (Some ["HDFC"])).
Proof.
  refine (proj1 (proj2 (contributorsMap_last_write_wins MoreSamples.twiceRecorded))
            [("FPO1", Contributors.mk (Some ["UPI"]) None)] "FPO1"
            (Contributors.mk (Some ["CREDIT"]) (Some ["HDFC"])) [] eq_refl _).
  intros c' H. destruct H.
Defined.

(** ** The candidates *)

Section Candidates.
Import Normalizer CorrelationSpec.

Lemma candidateId_not_applicable (m : gmap string Contributors.t) (adj : Adjustment.t) :
  applicable adj = false -> candidateId m adj = None.
Proof.
  unfold applicable, candidateId. destruct (Adjustment.offer_details adj); [| reflexivity].
  intros H. apply negb_false_iff in H. now rewrite H.
Qed.

Lemma candidateId_toOffer (m : gmap string Contributors.t) (adj : Adjustment.t)
    (r : option Offer.t) :
  applicable adj = true -> toOffer m adj = Ok r ->
  candidateId m adj = Offer.adjustmentId <$> r.
Proof.
  unfold applicable, candidateId, toOffer, expandInstruments.
  destruct (Adjustment.offer_details adj) as [details|]; [| discriminate].
  intros H. apply negb_true_iff in H. rewrite H.
  destruct (OfferDetails.adjustment_id details) as [id|]; [| now intros [= <-]].
  destruct (m !! id) as [c|]; [| now intros [= <-]].
  destruct (OfferDetails.summary details); [| discriminate].
  destruct (Contributors.payment_instrument c); simpl; [| discriminate].
  now intros [= <-].
Qed.

Lemma candidateId_None (m : gmap string Contributors.t) (adj : Adjustment.t) :
  candidateId m adj = None <-> NormalizerSpec.Unusable m adj.
Proof.
  unfold candidateId, NormalizerSpec.Unusable.
  destruct (Adjustment.offer_details adj) as [details|]; [| tauto].
  case_bool_decide as Hsub; [tauto |].
  destruct (OfferDetails.adjustment_id details) as [id|]; [| tauto].
  destruct (m !! id); split; try tauto; try discriminate.
  intros [H | H]; [contradiction | discriminate].
Qed.

Lemma length_omap_le {A B} (f : A -> option B) (l : list A) :
  (length (omap f l) <= length l)%nat.
Proof.
  induction l as [|x l IH]; [simpl; lia |].
  change (omap f (x :: l))
    with (match f x with Some y => y :: omap f l | None => omap f l end).
  destruct (f x); simpl; lia.
Qed.

Lemma process_ids (m : gmap string Contributors.t) (l : list Adjustment.t)
    (offers : list Offer.t) :
  process m l = Ok offers -> map Offer.adjustmentId offers = omap (candidateId m) l.
Proof.
  revert offers. induction l as [|adj l IH]; intros offers.
  - rewrite process_nil. now intros [= <-].
  - rewrite process_cons. cbn [omap list_omap]. destruct (applicable adj) eqn:Happ.
    + destruct (toOffer m adj) as [r|e] eqn:Hto; simpl; [| discriminate].
      destruct (process m l) as [rest|e]; simpl; [| discriminate].
      intros [= <-]. rewrite (candidateId_toOffer _ _ _ Happ Hto).
      destruct r; simpl; now rewrite (IH rest).
    + rewrite (candidateId_not_applicable _ _ Happ). apply IH.
Qed.

(** The record built for a usable adjustment, seen from the payload. *)
Lemma offersToProcess_inv (d : ApiData.t) (offers : list Offer.t) (o : Offer.t) :
  offersToProcess d = Ok offers -> o ∈ offers ->
  exists adj details contributors summary,
    adj ∈ adjustmentList d
    /\ Adjustment.offer_details adj = Some details
    /\ contributorsMap d !! Offer.adjustmentId o = Some contributors
    /\ OfferDetails.summary details = Some summary
    /\ expandInstruments contributors = Ok (Offer.paymentInstruments o)
    /\ Offer.title o = OfferDetails.title details
    /\ Offer.description o = summary
    /\ Offer.type o = OfferDetails.adjustment_type details.
Proof.
  intros Hn Hin. destruct (process_elem _ _ _ _ Hn Hin) as (adj & Hadj & _ & Hto).
  destruct (toOffer_inv _ _ _ Hto) as (details & c & summary & Hd & _ & Hc & Hs & Hp & Ho).
  exists adj, details, c, summary.
  assert (Offer.title o = OfferDetails.title details) by (rewrite Ho; reflexivity).
  assert (Offer.description o = summary) by (rewrite Ho; reflexivity).
  assert (Offer.type o = OfferDetails.adjustment_type details) by (rewrite Ho; reflexivity).
  repeat split; auto.
Qed.

Lemma all_unusable_process (m : gmap string Contributors.t) (l : list Adjustment.t) :
  (forall adj, adj ∈ l -> NormalizerSpec.Unusable m adj) -> process m l = Ok [].
Proof.
  induction l as [|adj l IH]; intros H; [reflexivity |].
  rewrite process_unusable_head by (apply H; left).
  apply IH. intros a Ha. apply H. now right.
Qed.

End Candidates.

(** X2.  The candidates are the usable adjustments, one each and in the
    order of the adjustment list: their ids are the ids of the adjustments
    that have offer details, a sub-type other than the full-interest-waiver
    one and an entry in the correlation map; so no more offers are
    identified than the list has adjustments. *)
Theorem candidates_in_order (m : gmap string Contributors.t) (l : list Adjustment.t)
    (offers : list Offer.t) :
  Normalizer.process m l = Ok offers ->
  map Offer.adjustmentId offers = omap (CorrelationSpec.candidateId m) l
  /\ (length offers <= length l)%nat
  /\ (forall adj, CorrelationSpec.candidateId m adj = None <-> NormalizerSpec.Unusable m adj).
Proof.
  intros H. pose proof (process_ids _ _ _ H) as Hids. split; [exact Hids |]. split.
  - rewrite <- (length_map Offer.adjustmentId), Hids. apply length_omap_le.
  - intros adj. apply candidateId_None.
Qed.

Lemma candidates_in_order_witness :
  map Offer.adjustmentId [Samples.offerIdfc; Samples.offerUpi]
  = omap (CorrelationSpec.candidateId (Normalizer.contributorsMap (Samples.data [])))
         [Samples.adjWaiver; Samples.adjIdfc; Samples.adjOrphan; Samples.adjNoDetails;
          Samples.adjUpi].
Proof.
  refine (proj1 (candidates_in_order
                   (Normalizer.contributorsMap (Samples.data []))
                   [Samples.adjWaiver; Samples.adjIdfc; Samples.adjOrphan;
                    Samples.adjNoDetails; Samples.adjUpi]
                   [Samples.offerIdfc; Samples.offerUpi] _)).
  vm_compute. reflexivity.
Defined.

(** X3.  A candidate has one [paymentInstruments] entry per instrument of
    its contributors, in their order, each with the contributors' whole
    bank list (empty when there is none); so the stored offer matches a
    query for any of those banks with any of those instruments once the
    amount reaches its threshold. *)
Theorem instruments_expanded (d : ApiData.t) (offers : list Offer.t) (o : Offer.t) :
  Normalizer.offersToProcess d = Ok offers ->
  o ∈ offers ->
  exists contributors instruments,
    Normalizer.contributorsMap d !! Offer.adjustmentId o = Some contributors
    /\ Contributors.payment_instrument contributors = Some instruments
    /\ map PaymentInstrument.paymentInstrument (Offer.paymentInstruments o) = instruments
    /\ (forall pi, pi ∈ Offer.paymentInstruments o ->
                   PaymentInstrument.banks pi = default [] (Contributors.banks contributors))
    /\ (forall bank instrument amount,
           bank ∈ default [] (Contributors.banks contributors) ->
           instrument ∈ instruments ->
           JsNum.leb (Offer.minTrxnValue o) amount = true ->
           Store.matches bank amount (Some instrument) o = true).
Proof.
  intros Hn Hin.
  destruct (offersToProcess_inv _ _ _ Hn Hin)
    as (adj & details & c & summary & _ & _ & Hc & _ & Hp & _).
  unfold Normalizer.expandInstruments in Hp.
  destruct (Contributors.payment_instrument c) as [instruments|] eqn:Hi; [| discriminate].
  injection Hp as Hp. exists c, instruments.
  split; [exact Hc |]. split; [exact Hi |]. rewrite <- Hp.
  split; [| split].
  - rewrite map_map. simpl. apply map_id.
  - intros pi Hpi. apply list_elem_of_In, in_map_iff in Hpi as (i & <- & _). reflexivity.
  - intros bank instrument amount Hbank Hinstr Hmin. unfold Store.matches.
    rewrite <- Hp. apply list_elem_of_In in Hinstr.
    rewrite !andb_true_iff. repeat split.
    + apply existsb_exists.
      exists (PaymentInstrument.mk instrument (default [] (Contributors.banks c))).
      split; [apply in_map_iff; eauto | now apply bool_decide_eq_true].
    + exact Hmin.
    + apply existsb_exists.
      exists (PaymentInstrument.mk instrument (default [] (Contributors.banks c))).
      split; [apply in_map_iff; eauto | apply String.eqb_refl].
Qed.

Lemma instruments_expanded_witness :
  exists contributors instruments,
    Normalizer.contributorsMap (Samples.data [Samples.adjIdfc; Samples.adjUpi]) !! "FPO1"
    = Some contributors
    /\ Contributors.payment_instrument contributors = Some instruments
    /\ map PaymentInstrument.paymentInstrument (Offer.paymentInstruments Samples.offerIdfc)
       = instruments
    /\ (forall pi, pi ∈ Offer.paymentInstruments Samples.offerIdfc ->
                   PaymentInstrument.banks pi = default [] (Contributors.banks contributors))
    /\ (forall bank instrument amount,
           bank ∈ default [] (Contributors.banks contributors) ->
           instrument ∈ instruments ->
           JsNum.leb (Offer.minTrxnValue Samples.offerIdfc) amount = true ->
           Store.matches bank amount (Some instrument) Samples.offerIdfc = true).
Proof.
  apply (instruments_expanded (Samples.data [Samples.adjIdfc; Samples.adjUpi])
           [Samples.offerIdfc; Samples.offerUpi] Samples.offerIdfc).
  - vm_compute. reflexivity.
  - left.
Defined.

(** X4.  The [adjustmentId] of a candidate is never empty, so a candidate
    passes the schema's validators exactly when its title, description and
    type, which are the vendor's [title], [summary] and [adjustment_type],
    are present and not empty. *)
Theorem candidates_validation (d : ApiData.t) (offers : list Offer.t) (o : Offer.t) :
  Normalizer.offersToProcess d = Ok offers ->
  o ∈ offers ->
  Offer.adjustmentId o <> ""
  /\ (Offer.validate o = true
      <-> truthy (Offer.title o) = true
          /\ Offer.description o <> ""
          /\ truthy (Offer.type o) = true)
  /\ exists adj details,
       adj ∈ Normalizer.adjustmentList d
       /\ Adjustment.offer_details adj = Some details
       /\ Offer.title o = OfferDetails.title details
       /\ Some (Offer.description o) = OfferDetails.summary details
       /\ Offer.type o = OfferDetails.adjustment_type details.
Proof.
  intros Hn Hin.
  destruct (offersToProcess_inv _ _ _ Hn Hin)
    as (adj & details & c & summary & Hadj & Hd & Hc & Hs & _ & Ht & Hdesc & Hty).
  assert (Offer.adjustmentId o <> "") as Hid by now apply (contributorsMap_key_nonempty d _ c).
  split; [exact Hid |]. split.
  - unfold Offer.validate, Offer.required. cbn [truthy].
    rewrite (proj2 (String.eqb_neq _ _) Hid). cbn [negb andb].
    rewrite !andb_true_iff, negb_true_iff, String.eqb_neq. tauto.
  - exists adj, details. rewrite Hdesc. auto.
Qed.

Lemma candidates_validation_witness :
  Offer.adjustmentId Samples.offerUpi <> ""
  /\ (Offer.validate Samples.offerUpi = true
      <-> truthy (Offer.title Samples.offerUpi) = true
          /\ Offer.description Samples.offerUpi <> ""
          /\ truthy (Offer.type Samples.offerUpi) = true).
Proof.
  destruct (candidates_validation (Samples.data [Samples.adjIdfc; Samples.adjUpi])
              [Samples.offerIdfc; Samples.offerUpi] Samples.offerUpi)
    as (Hid & Hval & _).
  - vm_compute. reflexivity.
  - right; left.
  - split; [exact Hid | exact Hval].
Defined.

(** X5.  When every adjustment of the payload is unusable (in particular
    when the list is empty or absent), the ingestion answers 200 with both
    counts 0 and touches neither the collection nor the storage layer,
    whatever that layer would have answered. *)
Theorem only_unusable_adjustments (storage : Storage.t) (response : ApiResponse.t)
    (others : list Offer.t) (w : world) :
  (forall adj,
      adj ∈ Normalizer.adjustmentList (Normalizer.apiData response) ->
      NormalizerSpec.Unusable (Normalizer.contributorsMap (Normalizer.apiData response)) adj) ->
  createOffers storage (mkIngest (Some response)) others w
  = (Ok (respond 200 (Counts 0 0)), w).
Proof.
  intros H. apply createOffers_none. unfold Normalizer.offersToProcess.
  now apply all_unusable_process.
Qed.

(** X5, at a payload of three adjustments: a full-interest waiver, one
    whose id is in no section and one without offer details, over a
    storage layer that rejects every call. *)
Lemma only_unusable_adjustments_witness :
  createOffers (fun _ => Some (Storage.mkFault "no connection" 0))
    (Samples.request [Samples.adjWaiver; Samples.adjOrphan; Samples.adjNoDetails])
    [Samples.offerUpiOther] (mkWorld [Samples.offerIdfc] [])
  = (Ok (respond 200 (Counts 0 0)), mkWorld [Samples.offerIdfc] []).
Proof.
  apply (only_unusable_adjustments (fun _ => Some (Storage.mkFault "no connection" 0))
           (Samples.envelope [Samples.adjWaiver; Samples.adjOrphan; Samples.adjNoDetails])
           [Samples.offerUpiOther] (mkWorld [Samples.offerIdfc] [])).
  intros adj H.
  change (adj ∈ [Samples.adjWaiver; Samples.adjOrphan; Samples.adjNoDetails]) in H.
  apply list_elem_of_In in H as [<- | [<- | [<- | []]]].
  - left. reflexivity.
  - right. vm_compute. reflexivity.
  - exact I.
Defined.

(** ** What an ingestion does to the collection *)

Section Ingestion.

Lemma insertOrdered_extends (docs coll : list Offer.t) :
  exists added, (Store.insertOrdered coll docs).2 = coll ++ added.
Proof.
  revert coll. induction docs as [|d ds IH]; intros coll; simpl.
  - exists []. now rewrite app_nil_r.
  - case_bool_decide as Hdup; simpl.
    + exists []. now rewrite app_nil_r.
    + destruct (IH (coll ++ [d])) as [added ->]. exists (d :: added).
      now rewrite <- app_assoc.
Qed.

Lemma insertOrdered_Ok (docs coll coll' : list Offer.t) (u : unit) :
  Store.insertOrdered coll docs = (Ok u, coll') -> coll' = coll ++ docs.
Proof.
  revert coll. induction docs as [|d ds IH]; intros coll; simpl.
  - intros [= _ <-]. now rewrite app_nil_r.
  - case_bool_decide as Hdup; [discriminate |].
    intros H. apply IH in H as ->. now rewrite <- app_assoc.
Qed.

Lemma commitOthers_extends (others : list Offer.t) (w : world) :
  exists added, collection (Store.commitOthers others w).2 = collection w ++ added.
Proof.
  unfold Store.commitOthers; simpl. generalize (collection w) as coll.
  induction others as [|d ds IH]; intros coll; simpl.
  - exists []. now rewrite app_nil_r.
  - case_bool_decide as Hdup; [apply IH |].
    destruct (IH (coll ++ [d])) as [added ->]. exists (d :: added).
    now rewrite <- app_assoc.
Qed.

Lemma insertMany_extends (docs : list Offer.t) (w : world) :
  exists added, collection (Store.insertMany Storage.reliable docs w).2 = collection w ++ added.
Proof.
  unfold Store.insertMany. destruct (List.find _ docs); simpl.
  - exists []. now rewrite app_nil_r.
  - destruct (insertOrdered_extends docs (collection w)) as [added Ha].
    destruct (Store.insertOrdered (collection w) docs) as [r coll]. simpl in *. eauto.
Qed.


Lemma insertMany_throws (docs : list Offer.t) (w w' : world) (e : exn) :
  Store.insertMany Storage.reliable docs w = (Throw e, w') ->
  (exists o, In o docs /\ Offer.validate o = false
             /\ e = ValidationError (Offer.adjustmentId o)
             /\ collection w' = collection w)
  \/ (exists id, e = DuplicateKey id).
Proof.
  unfold Store.insertMany. destruct (List.find _ docs) as [bad|] eqn:Hf.
  - intros [= <- <-]. apply find_some in Hf as [Hin Hv]. apply negb_true_iff in Hv.
    left. exists bad. auto.
  - cbn [collection calls].
    destruct (Store.insertOrdered (collection w) docs) as [[u|e'] coll] eqn:Hins;
      [discriminate |].
    intros [= <- _]. right. now apply insertOrdered_throws in Hins.
Qed.

(** The errors of an insert over any storage layer. *)
Lemma insertMany_error (storage : Storage.t) (docs : list Offer.t) (w w' : world) (e : exn) :
  Store.insertMany storage docs w = (Throw e, w') ->
  (exists id, e = ValidationError id)
  \/ (exists id, e = DuplicateKey id)
  \/ (exists fault, storage (OpInsertMany docs) = Some fault
                    /\ e = StorageError (Storage.message fault)).
Proof.
  unfold Store.insertMany. destruct (List.find _ docs) as [bad|].
  - intros [= <- _]. left. eauto.
  - cbn [collection calls]. destruct (storage _) as [fault|].
    + destruct (Store.insertOrdered _ _) as [[u|e'] coll] eqn:Hins; cbn [Result.bind].
      * intros [= <- _]. right; right. eauto.
      * intros [= <- _]. right; left. now apply insertOrdered_throws in Hins.
    + destruct (Store.insertOrdered _ _) as [[u|e'] coll] eqn:Hins; [discriminate |].
      intros [= <- _]. right; left. now apply insertOrdered_throws in Hins.
Qed.

Lemma ids_app (a b : list Offer.t) : Store.ids (a ++ b) = Store.ids a ++ Store.ids b.
Proof. apply map_app. Qed.

Lemma NoDup_ids_snoc (coll : list Offer.t) (d : Offer.t) :
  NoDup (Store.ids coll) -> Offer.adjustmentId d ∉ Store.ids coll ->
  NoDup (Store.ids (coll ++ [d])).
Proof.
  intros Hnd Hd. rewrite ids_app. apply NoDup_app. split; [assumption |]. split.
  - intros x Hx Hx'. apply list_elem_of_singleton in Hx'. now subst x.
  - apply NoDup_singleton.
Qed.

Lemma insertOrdered_NoDup (docs coll : list Offer.t) :
  NoDup (Store.ids coll) -> NoDup (Store.ids (Store.insertOrdered coll docs).2).
Proof.
  revert coll. induction docs as [|d ds IH]; intros coll Hnd; simpl; [assumption |].
  case_bool_decide as Hdup; simpl; [assumption |].
  apply IH. now apply NoDup_ids_snoc.
Qed.

Lemma commitOthers_NoDup (others : list Offer.t) (w : world) :
  NoDup (Store.ids (collection w)) ->
  NoDup (Store.ids (collection (Store.commitOthers others w).2)).
Proof.
  unfold Store.commitOthers; simpl. generalize (collection w) as coll.
  induction others as [|d ds IH]; intros coll Hnd; simpl; [assumption |].
  case_bool_decide as Hdup; apply IH; [assumption | now apply NoDup_ids_snoc].
Qed.

Lemma insertMany_NoDup (docs : list Offer.t) (w : world) :
  NoDup (Store.ids (collection w)) ->
  NoDup (Store.ids (collection (Store.insertMany Storage.reliable docs w).2)).
Proof.
  intros Hnd. unfold Store.insertMany. destruct (List.find _ docs); [assumption |].
  pose proof (insertOrdered_NoDup docs (collection w) Hnd) as H.
  cbn [collection calls]. now destruct (Store.insertOrdered (collection w) docs).
Qed.

(** The worlds an ingestion goes through once candidates were identified:
    after the existence check and the writes of others, then after the
    insert, if there is one. *)
Lemma createOffers_world (response : ApiResponse.t) (others : list Offer.t) (w : world)
    (offers : list Offer.t) :
  Normalizer.offersToProcess (Normalizer.apiData response) = Ok offers ->
  offers <> [] ->
  let w2 := mkWorld (collection (Store.commitOthers others w).2)
                    (calls w ++ [OpFindByIds (map Offer.adjustmentId offers)]) in
  let new := StoreSpec.notStored (collection w) offers in
  (createOffers Storage.reliable (mkIngest (Some response)) others w).2
  = if (0 <? length new)%nat then (Store.insertMany Storage.reliable new w2).2 else w2.
Proof.
  intros Hn Hne. rewrite (createOffers_some _ _ _ _ Hn Hne). cbv zeta.
  destruct (0 <? length _)%nat; [| reflexivity].
  change (Store.commitOthers others
            (mkWorld (collection w)
               (calls w ++ [OpFindByIds (map Offer.adjustmentId offers)]))).2
    with (mkWorld (collection (Store.commitOthers others w).2)
            (calls w ++ [OpFindByIds (map Offer.adjustmentId offers)])).
  destruct (Store.insertMany Storage.reliable _ _) as [[[]|e] w3]; reflexivity.
Qed.

End Ingestion.

(** X6.  Whatever the storage layer does, an ingestion always answers,
    with one of four outcomes: 400 when the envelope field is missing; 200
    with zero counts when no candidate is identified; 500 with the error
    when the normalizer throws (which leaves the world as it was), when
    the insert fails on validation or on a duplicate key, or when the
    storage layer rejects the existence check or the insert; 201 with the
    counts otherwise, where at least one offer is identified and no more
    are created than identified. *)
Theorem createOffers_outcomes (storage : Storage.t) (req : IngestRequest)
    (others : list Offer.t) (w : world) :
  exists response w',
    createOffers storage req others w = (Ok response, w')
    /\ ((status response = 400%nat
         /\ flipkartOfferApiResponse req = None /\ w' = w)
        \/ (response = respond 200 (Counts 0 0) /\ w' = w
            /\ exists r, flipkartOfferApiResponse req = Some r
                         /\ Normalizer.offersToProcess (Normalizer.apiData r) = Ok [])
        \/ (exists e, response = respond 500 (Failure "Error creating offers" e)
                      /\ ((exists reading, e = TypeError reading /\ w' = w)
                          \/ (exists id, e = ValidationError id)
                          \/ (exists id, e = DuplicateKey id)
                          \/ (exists op fault,
                                 storage op = Some fault
                                 /\ e = StorageError (Storage.message fault))))
        \/ (exists n k, response = respond 201 (Counts n k)
                        /\ (0 < n)%nat /\ (k <= n)%nat)).
Proof.
  destruct req as [[response|]].
  2:{ rewrite createOffers_missing. eexists _, _. split; [reflexivity |]. left. auto. }
  destruct (Normalizer.offersToProcess (Normalizer.apiData response)) as [offers|e] eqn:Hn.
  2:{ rewrite (createOffers_throw _ _ _ _ _ Hn). eexists _, _. split; [reflexivity |].
      right; right; left. exists e. split; [reflexivity |]. left.
      apply process_throws in Hn as [reading ->]. eauto. }
  destruct offers as [|o0 offers].
  { rewrite (createOffers_none _ _ _ _ Hn). eexists _, _. split; [reflexivity |].
    right; left. eauto. }
  rewrite (createOffers_run _ _ _ _ _ Hn) by discriminate. cbv zeta.
  destruct (storage (OpFindByIds _)) as [fault|] eqn:Hfind.
  { eexists _, _. split; [reflexivity |]. right; right; left. eexists. split; [reflexivity |].
    right; right; right. eauto. }
  set (new := StoreSpec.notStored _ _).
  assert (length new <= length (o0 :: offers))%nat as Hle by apply filter_length_le.
  destruct (0 <? length new)%nat.
  - destruct (Store.insertMany storage new _) as [[[]|e] w3] eqn:Hins.
    + eexists _, _. split; [reflexivity |]. right; right; right.
      eexists _, _. split; [reflexivity |]. simpl in *. split; lia.
    + eexists _, _. split; [reflexivity |]. right; right; left. exists e.
      split; [reflexivity |]. right.
      apply insertMany_error in Hins as [H | [H | (fault & Hs & ->)]];
        [now left | right; now left | right; right; eauto].
  - eexists _, _. split; [reflexivity |]. right; right; right.
    eexists _, _. split; [reflexivity |]. simpl in *. split; lia.
Qed.

(** A storage layer that rejects the existence check, and one that rejects
    the insert after it wrote the first document: both requests are
    answered 500, and the second leaves that document stored. *)
Example createOffers_storage_faults :
  let request := Samples.request [Samples.adjIdfc; Samples.adjUpi] in
  let noFind op :=
    match op with OpFindByIds _ => Some (Storage.mkFault "timed out" 0) | _ => None end in
  let noInsert op :=
    match op with OpInsertMany _ => Some (Storage.mkFault "connection lost" 1) | _ => None end in
  createOffers noFind request [] Samples.emptyWorld
  = (Ok (respond 500 (Failure "Error creating offers" (StorageError "timed out"))),
     mkWorld [] [OpFindByIds ["FPO1"; "FPO2"]])
  /\ (createOffers noInsert request [] Samples.emptyWorld).1
     = Ok (respond 500 (Failure "Error creating offers" (StorageError "connection lost")))
  /\ collection (createOffers noInsert request [] Samples.emptyWorld).2 = [Samples.offerIdfc].
Proof. cbv zeta. repeat split; vm_compute; reflexivity. Qed.

(** The collection only grows. *)
Lemma createOffers_collection_extends (req : IngestRequest) (others : list Offer.t)
    (w : world) :
  exists added, collection (createOffers Storage.reliable req others w).2 = collection w ++ added.
Proof.
  destruct req as [[response|]];
    [| rewrite createOffers_missing; exists []; now rewrite app_nil_r].
  destruct (Normalizer.offersToProcess (Normalizer.apiData response)) as [offers|e] eqn:Hn;
    [| rewrite (createOffers_throw _ _ _ _ _ Hn); exists []; now rewrite app_nil_r].
  destruct offers as [|o0 offers];
    [rewrite (createOffers_none _ _ _ _ Hn); exists []; now rewrite app_nil_r |].
  rewrite (createOffers_world _ _ _ _ Hn) by discriminate. cbv zeta.
  destruct (commitOthers_extends others w) as [added1 H1].
  destruct (0 <? length _)%nat.
  - destruct (insertMany_extends (StoreSpec.notStored (collection w) (o0 :: offers))
                (mkWorld (collection (Store.commitOthers others w).2)
                   (calls w ++ [OpFindByIds (map Offer.adjustmentId (o0 :: offers))])))
      as [added2 H2].
    rewrite H2. cbn [collection]. rewrite H1. exists (added1 ++ added2).
    now rewrite app_assoc.
  - cbn [collection]. eauto.
Qed.

(** X7.  An ingestion never removes, moves or changes a stored record:
    whatever the request, the writes of others and the outcome, the
    collection afterwards is the collection before with records appended,
    so every record is found at the position it had. *)
Theorem stored_records_kept (req : IngestRequest) (others : list Offer.t) (w : world) :
  (exists added, collection (createOffers Storage.reliable req others w).2 = collection w ++ added)
  /\ (forall (i : nat) (o : Offer.t),
         collection w !! i = Some o ->
         collection (createOffers Storage.reliable req others w).2 !! i = Some o)
  /\ (length (collection w) <= length (collection (createOffers Storage.reliable req others w).2))%nat.
Proof.
  destruct (createOffers_collection_extends req others w) as [added Hadd].
  split; [eauto |]. rewrite Hadd. split.
  - intros i o Hi. now apply lookup_app_l_Some.
  - rewrite length_app. lia.
Qed.

(** X8.  The unique index is kept: when no two stored records share their
    [adjustmentId] before an ingestion, none do after it, whatever the
    payload (duplicate ids included), the writes of others and the
    outcome. *)
Theorem unique_adjustmentId_kept (req : IngestRequest) (others : list Offer.t) (w : world) :
  NoDup (Store.ids (collection w)) ->
  NoDup (Store.ids (collection (createOffers Storage.reliable req others w).2)).
Proof.
  intros Hnd.
  destruct req as [[response|]]; [| now rewrite createOffers_missing].
  destruct (Normalizer.offersToProcess (Normalizer.apiData response)) as [offers|e] eqn:Hn;
    [| now rewrite (createOffers_throw _ _ _ _ _ Hn)].
  destruct offers as [|o0 offers]; [now rewrite (createOffers_none _ _ _ _ Hn) |].
  rewrite (createOffers_world _ _ _ _ Hn) by discriminate. cbv zeta.
  pose proof (commitOthers_NoDup others w Hnd) as H2.
  destruct (0 <? length _)%nat; [| exact H2].
  now apply insertMany_NoDup.
Qed.

Lemma unique_adjustmentId_kept_witness :
  NoDup (Store.ids (collection
    (createOffers Storage.reliable (Samples.request [Samples.adjIdfc; Samples.adjIdfc; Samples.adjUpi])
                  [Samples.offerUpiOther] Samples.emptyWorld).2)).
Proof.
  apply (unique_adjustmentId_kept
           (Samples.request [Samples.adjIdfc; Samples.adjIdfc; Samples.adjUpi])
           [Samples.offerUpiOther] Samples.emptyWorld).
  constructor.
Defined.

(** X9.  When an ingestion answers 201, the number identified is the
    number of candidates, the number created is the number of candidates
    whose id the collection did not hold at the existence check, and
    exactly those candidates were appended, in their order; a candidate
    whose id was already stored is neither inserted nor counted. *)
Theorem created_are_the_new_ones (req : IngestRequest) (others : list Offer.t) (w w' : world)
    (n k : nat) :
  createOffers Storage.reliable req others w = (Ok (respond 201 (Counts n k)), w') ->
  exists response offers,
    flipkartOfferApiResponse req = Some response
    /\ Normalizer.offersToProcess (Normalizer.apiData response) = Ok offers
    /\ n = length offers
    /\ k = length (StoreSpec.notStored (collection w) offers)
    /\ collection w'
       = collection (Store.commitOthers others w).2
         ++ StoreSpec.notStored (collection w) offers
    /\ (forall o, o ∈ offers -> Offer.adjustmentId o ∈ Store.ids (collection w) ->
                  o ∉ StoreSpec.notStored (collection w) offers).
Proof.
  destruct req as [[response|]]; [| rewrite createOffers_missing; discriminate].
  destruct (Normalizer.offersToProcess (Normalizer.apiData response)) as [offers|e] eqn:Hn;
    [| rewrite (createOffers_throw _ _ _ _ _ Hn); discriminate].
  destruct offers as [|o0 offers]; [rewrite (createOffers_none _ _ _ _ Hn); discriminate |].
  rewrite (createOffers_some _ _ _ _ Hn) by discriminate. cbv zeta.
  set (new := StoreSpec.notStored _ _).
  assert (forall o, o ∈ o0 :: offers -> Offer.adjustmentId o ∈ Store.ids (collection w) ->
                    o ∉ new) as Hskip.
  { intros o _ Hid Hin. apply list_elem_of_In, filter_In in Hin as [_ Hf].
    apply negb_true_iff, bool_decide_eq_false in Hf. contradiction. }
  destruct (0 <? length new)%nat eqn:Hlen.
  - unfold Store.insertMany. destruct (List.find _ new); [discriminate |].
    cbn [collection calls].
    destruct (Store.insertOrdered _ new) as [[u|e] coll] eqn:Hins; [| discriminate].
    intros [= <- <- <-]. apply insertOrdered_Ok in Hins as ->.
    exists response, (o0 :: offers). repeat split; auto.
  - intros [= <- <- <-]. apply Nat.ltb_ge in Hlen.
    assert (new = []) as Hnil by (destruct new; [reflexivity | simpl in Hlen; lia]).
    exists response, (o0 :: offers). fold new.
    split; [reflexivity |]. split; [exact Hn |]. split; [reflexivity |].
    split; [reflexivity |]. split; [| exact Hskip].
    rewrite Hnil, app_nil_r. reflexivity.
Qed.

Lemma created_are_the_new_ones_witness :
  exists response offers,
    flipkartOfferApiResponse (Samples.request [Samples.adjIdfc; Samples.adjUpi])
    = Some response
    /\ Normalizer.offersToProcess (Normalizer.apiData response) = Ok offers
    /\ 2%nat = length offers
    /\ 1%nat = length (StoreSpec.notStored [Samples.offerUpiOther] offers)
    /\ [Samples.offerUpiOther; Samples.offerIdfc]
       = [Samples.offerUpiOther] ++ StoreSpec.notStored [Samples.offerUpiOther] offers
    /\ (forall o, o ∈ offers -> Offer.adjustmentId o ∈ Store.ids [Samples.offerUpiOther] ->
                  o ∉ StoreSpec.notStored [Samples.offerUpiOther] offers).
Proof.
  refine (created_are_the_new_ones
            (Samples.request [Samples.adjIdfc; Samples.adjUpi]) []
            (mkWorld [Samples.offerUpiOther] [])
            (mkWorld [Samples.offerUpiOther; Samples.offerIdfc]
               [OpFindByIds ["FPO1"; "FPO2"]; OpInsertMany [Samples.offerIdfc]])
            2 1 _).
  vm_compute. reflexivity.
Defined.


(** X11.  When an ingestion fails on the schema's validation, it answers
    500, names a candidate that was to be created and that the schema
    rejects, and has inserted nothing: the collection holds what it held
    after the writes of others. *)
Theorem validation_failure_stores_nothing (req : IngestRequest) (others : list Offer.t)
    (w w' : world) (code : nat) (message id : string) :
  createOffers Storage.reliable req others w = (Ok (respond code (Failure message (ValidationError id))), w') ->
  code = 500%nat
  /\ collection w' = collection (Store.commitOthers others w).2
  /\ exists response offers o,
       flipkartOfferApiResponse req = Some response
       /\ Normalizer.offersToProcess (Normalizer.apiData response) = Ok offers
       /\ o ∈ StoreSpec.notStored (collection w) offers
       /\ Offer.adjustmentId o = id
       /\ Offer.validate o = false.
Proof.
  destruct req as [[response|]]; [| rewrite createOffers_missing; discriminate].
  destruct (Normalizer.offersToProcess (Normalizer.apiData response)) as [offers|e] eqn:Hn.
  2:{ rewrite (createOffers_throw _ _ _ _ _ Hn). intros [= _ _ He _].
      apply process_throws in Hn as [reading ->]. discriminate. }
  destruct offers as [|o0 offers]; [rewrite (createOffers_none _ _ _ _ Hn); discriminate |].
  rewrite (createOffers_some _ _ _ _ Hn) by discriminate. cbv zeta.
  set (new := StoreSpec.notStored _ _).
  destruct (0 <? length new)%nat; [| discriminate].
  destruct (Store.insertMany Storage.reliable new _) as [[[]|e] w3] eqn:Hins; [discriminate |].
  intros [= <- _ -> <-]. split; [reflexivity |].
  apply insertMany_throws in Hins as [(o & Hin & Hv & [= ->] & Hcoll) | [id' [=]]].
  split; [exact Hcoll |].
  exists response, (o0 :: offers), o. repeat split; auto. now apply list_elem_of_In.
Qed.

Lemma validation_failure_stores_nothing_witness :
  500%nat = 500%nat
  /\ @nil Offer.t = collection (Store.commitOthers [] Samples.emptyWorld).2
  /\ exists response offers o,
       flipkartOfferApiResponse (Samples.request [Samples.adjIdfc; Samples.adjNoTitle])
       = Some response
       /\ Normalizer.offersToProcess (Normalizer.apiData response) = Ok offers
       /\ o ∈ StoreSpec.notStored [] offers
       /\ Offer.adjustmentId o = "FPO2"
       /\ Offer.validate o = false.
Proof.
  refine (validation_failure_stores_nothing
            (Samples.request [Samples.adjIdfc; Samples.adjNoTitle]) [] Samples.emptyWorld
            (mkWorld []
               [OpFindByIds ["FPO1"; "FPO2"];
                OpInsertMany
                  [Samples.offerIdfc;
                   Offer.mk "FPO2" None "Flat ₹100 cashback on UPI" (Some "INSTANT_DISCOUNT")
                            [PaymentInstrument.mk "UPI" []] (Fin 0) (Fin 0) (Fin 0)]])
            500 "Error creating offers" "FPO2" _).
  vm_compute. reflexivity.
Defined.

(** ** What a query computes on any collection *)

Section Scoring.

(** An answer that is [NaN] comes from an offer that is worth [NaN]. *)
Lemma highestDiscountAmount_NaN (n : jsnum) (l : list Offer.t) :
  highestDiscountAmount n l = NaN -> exists o, In o l /\ currentDiscount n o = NaN.
Proof.
  intros H. destruct (some_NaN_dec (currentDiscount n) l) as [Hex | Hall]; [exact Hex |].
  destruct (fold_max_spec (currentDiscount n) l (Fin 0)) as (r & Hrun & Hr & _);
    [discriminate | exact Hall |].
  unfold highestDiscountAmount in H. rewrite Hrun in H. now apply Hr in H.
Qed.

(** More offers to choose from never give less. *)
Lemma highestDiscountAmount_mono (n : jsnum) (l1 l2 : list Offer.t) :
  (forall o, In o l1 -> In o l2) ->
  JsNum.leb (highestDiscountAmount n l1) (highestDiscountAmount n l2) = true
  \/ highestDiscountAmount n l2 = NaN.
Proof. intros Hsub. now apply fold_max_mono. Qed.

(** An answer that is [NaN] takes the amount 0 and a stored percentage
    [Infinity]. *)
Lemma highestDiscountAmount_NaN_cause (n : jsnum) (l : list Offer.t) :
  n <> NaN ->
  highestDiscountAmount n l = NaN ->
  exists o a, In o l /\ Offer.discountPercentage o = PosInf /\ n = Fin a /\ (a == 0)%Q.
Proof.
  intros Hn H. apply highestDiscountAmount_NaN in H as (o & Ho & Hnan).
  destruct (currentDiscount_NaN n o Hn Hnan) as (Hp & a & Ha & H0). eauto 6.
Qed.

End Scoring.

(** X12.  For every amount that is a number, the infinite ones included,
    and a bank name, whatever the collection holds, the answer is 200 with
    an amount that is [NaN] exactly when a matching offer is worth [NaN],
    which takes the amount 0 and a stored percentage [Infinity]; otherwise
    it is not negative, is at least what each matching offer is worth, and
    is 0 or what one matching offer is worth. *)
Theorem answer_on_any_collection (q : Query.t) (w : world) (n : jsnum) (bank : string) :
  Number (Query.amountToPay q) = n ->
  n <> NaN ->
  Query.bankName q = Some bank ->
  bank <> "" ->
  let instrument :=
    if truthy (Query.paymentInstrument q) then Query.paymentInstrument q else None in
  let matching o := o ∈ collection w /\ Store.matches bank n instrument o = true in
  exists r,
    (getHighestDiscount Storage.reliable q w).1 = Ok (respond 200 (HighestDiscountAmount r))
    /\ (r = NaN <-> exists o, matching o /\ currentDiscount n o = NaN)
    /\ (r = NaN ->
        exists o a, matching o /\ Offer.discountPercentage o = PosInf
                    /\ n = Fin a /\ (a == 0)%Q)
    /\ (r <> NaN ->
        JsNum.leb (Fin 0) r = true
        /\ (forall o, matching o -> JsNum.leb (currentDiscount n o) r = true)
        /\ (r = Fin 0 \/ exists o, matching o /\ currentDiscount n o = r)).
Proof.
  intros Hn Hnan Hb Hne instrument matching.
  rewrite (getHighestDiscount_valid q w n bank Hn Hnan Hb Hne).
  fold instrument. cbn [fst].
  set (l := List.filter (Store.matches bank n instrument) (collection w)).
  assert (forall o, In o l <-> matching o) as Hl.
  { intros o. unfold l, matching. rewrite filter_In. now rewrite list_elem_of_In. }
  exists (highestDiscountAmount n l). split; [reflexivity |]. split; [split |]; [| | split].
  - intros H. apply highestDiscountAmount_NaN in H as (o & Ho & Hd).
    exists o. split; [now apply Hl | exact Hd].
  - intros (o & Ho & Hd). apply Hl in Ho.
    exact (fold_max_NaN (currentDiscount n) l (Fin 0) o Ho Hd).
  - intros H. apply (highestDiscountAmount_NaN_cause n l Hnan) in H
      as (o & a & Ho & Hp & Ha & H0).
    exists o, a. split; [now apply Hl | auto].
  - intros Hr.
    destruct (some_NaN_dec (currentDiscount n) l) as [(o & Ho & Hd) | Hall];
      [exfalso; apply Hr; exact (fold_max_NaN (currentDiscount n) l (Fin 0) o Ho Hd) |].
    destruct (fold_max_spec (currentDiscount n) l (Fin 0))
      as (r & Hrun & _ & Hseed & Hbound & Hex); [discriminate | exact Hall |].
    unfold highestDiscountAmount. rewrite Hrun.
    split; [exact Hseed |]. split.
    + intros o Ho. now apply Hbound, Hl.
    + destruct Hex as [He | (o & Ho & He)]; [now left | right].
      exists o. split; [now apply Hl | now symmetry].
Qed.

(** X12, at the amount ["Infinity"]: an offer without cap is worth
    [Infinity], and so is the answer. *)
Lemma answer_on_any_collection_witness :
  exists r,
    (getHighestDiscount Storage.reliable (Query.mk (Some "Infinity") (Some "IDFC") None)
       (mkWorld [Samples.offerNegative; Samples.offerIdfc] [])).1
    = Ok (respond 200 (HighestDiscountAmount r))
    /\ r <> NaN
    /\ JsNum.leb (currentDiscount PosInf Samples.offerNegative) r = true
    /\ currentDiscount PosInf Samples.offerNegative = PosInf.
Proof.
  destruct (answer_on_any_collection (Query.mk (Some "Infinity") (Some "IDFC") None)
              (mkWorld [Samples.offerNegative; Samples.offerIdfc] [])
              PosInf "IDFC")
    as (r & Hr & HNaN & Hcause & Hmax).
  - vm_compute. reflexivity.
  - discriminate.
  - reflexivity.
  - discriminate.
  - assert (r <> NaN) as Hnan.
    { intros H. apply Hcause in H as (o & a & _ & _ & Ha & _). discriminate. }
    exists r. split; [exact Hr |]. split; [exact Hnan |]. split; [| vm_compute; reflexivity].
    destruct (Hmax Hnan) as (_ & Hbound & _). apply Hbound.
    split; [left | vm_compute; reflexivity].
Defined.

(** X13.  An offer with a cap is never worth more than its cap, whatever
    the amount (infinite ones included) and whatever its percentage; the
    one pairing without a worth to compare, [NaN], is the amount 0 with
    the percentage [Infinity]. *)
Theorem discount_never_exceeds_cap (n : jsnum) (o : Offer.t) :
  n <> NaN ->
  JsNum.ltb (Fin 0) (Offer.maxDiscount o) = true ->
  JsNum.leb (currentDiscount n o) (Offer.maxDiscount o) = true
  \/ (Offer.discountPercentage o = PosInf /\ currentDiscount n o = NaN).
Proof.
  intros Hnan Hcap.
  destruct (ltb_not_NaN _ _ Hcap) as [_ Hc].
  destruct (currentDiscount n o) as [| |d|] eqn:Hd;
    [right; split; [| reflexivity]; now destruct (currentDiscount_NaN n o Hnan Hd)
    | left; now destruct (Offer.maxDiscount o) | left | left];
    revert Hd; unfold currentDiscount; rewrite Hcap; cbn [andb];
    (destruct (JsNum.ltb (Fin 0) (Offer.discountPercentage o));
     [| intros <-; now apply leb_refl]);
    (destruct (JsNum.ltb (Offer.maxDiscount o) _) eqn:Hlt;
     [intros <-; now apply leb_refl |]);
    intros Hd; rewrite Hd in Hlt; apply ltb_false_leb in Hlt; auto; discriminate.
Qed.

Lemma discount_never_exceeds_cap_witness :
  JsNum.leb (currentDiscount PosInf Samples.offerIdfc)
            (Offer.maxDiscount Samples.offerIdfc) = true
  \/ (Offer.discountPercentage Samples.offerIdfc = PosInf
      /\ currentDiscount PosInf Samples.offerIdfc = NaN).
Proof.
  apply (discount_never_exceeds_cap PosInf Samples.offerIdfc).
  - discriminate.
  - reflexivity.
Defined.

(** The pairing that has no worth: the amount 0 and a stored percentage
    [Infinity], whatever the cap. *)
Example infinite_percentage_of_nothing :
  let o := Offer.mk "INF" (Some "t") "d" (Some "k")
                    [PaymentInstrument.mk "CREDIT" ["HDFC"]] (Fin 0) (Fin 100) PosInf in
  currentDiscount (Fin 0) o = NaN
  /\ (getHighestDiscount Storage.reliable (Query.mk (Some "0") (Some "HDFC") None)
        (mkWorld [o] [])).1
     = Ok (respond 200 (HighestDiscountAmount NaN))
  /\ currentDiscount (Fin 1) o = Fin 100.
Proof. cbv zeta. repeat split; vm_compute; reflexivity. Qed.

(** X14.  A query never writes: the collection after it is the collection
    before it.  It makes no storage call when it is rejected, and exactly
    one, a find with the bank name, the parsed amount and the instrument
    if one was supplied, when it is accepted. *)
Theorem query_reads_only (q : Query.t) (w : world) :
  collection (getHighestDiscount Storage.reliable q w).2 = collection w
  /\ ((Number (Query.amountToPay q) = NaN \/ truthy (Query.bankName q) = false) ->
      calls (getHighestDiscount Storage.reliable q w).2 = calls w)
  /\ (forall bank,
         Number (Query.amountToPay q) <> NaN ->
         Query.bankName q = Some bank -> bank <> "" ->
         calls (getHighestDiscount Storage.reliable q w).2
         = calls w ++ [OpFindQuery bank (Number (Query.amountToPay q))
                         (if truthy (Query.paymentInstrument q)
                          then Query.paymentInstrument q else None)]).
Proof.
  split; [| split].
  - destruct (JsNum.isNaN (Number (Query.amountToPay q))) eqn:Hn.
    + rewrite getHighestDiscount_invalid; [reflexivity |]. left.
      now destruct (Number (Query.amountToPay q)).
    + destruct (truthy (Query.bankName q)) eqn:Hb.
      * apply truthy_Some in Hb as (bank & Hb & Hne).
        rewrite (getHighestDiscount_valid q w _ bank eq_refl); auto.
        intros H. now rewrite H in Hn.
      * now rewrite getHighestDiscount_invalid by now right.
  - intros H. now rewrite getHighestDiscount_invalid.
  - intros bank Hn Hb Hne. now rewrite (getHighestDiscount_valid q w _ bank eq_refl).
Qed.

Lemma query_reads_only_witness :
  calls (getHighestDiscount Storage.reliable (Query.mk (Some "12.5") (Some "IDFC") (Some ""))
                            (mkWorld [Samples.offerIdfc] [])).2
  = [OpFindQuery "IDFC" (Fin (25 # 2)) None].
Proof.
  refine (proj2 (proj2 (query_reads_only
                          (Query.mk (Some "12.5") (Some "IDFC") (Some ""))
                          (mkWorld [Samples.offerIdfc] []))) "IDFC" _ eq_refl _).
  - vm_compute. discriminate.
  - discriminate.
Defined.

(** X15.  Naming a payment instrument can only narrow the choice: for the
    same amount (any number, the infinite ones included) and bank, the
    answer with an instrument is never above the answer without one,
    unless that one is [NaN], which takes the amount 0 and a stored
    percentage [Infinity]. *)
Theorem instrument_never_raises_answer (w : world) (amount bank : string)
    (instrument : option string) (n : jsnum) :
  Number (Some amount) = n ->
  n <> NaN ->
  bank <> "" ->
  exists r r0,
    (getHighestDiscount Storage.reliable (Query.mk (Some amount) (Some bank) instrument) w).1
    = Ok (respond 200 (HighestDiscountAmount r))
    /\ (getHighestDiscount Storage.reliable (Query.mk (Some amount) (Some bank) None) w).1
       = Ok (respond 200 (HighestDiscountAmount r0))
    /\ (JsNum.leb r r0 = true \/ r0 = NaN)
    /\ (r0 = NaN ->
        exists o a, o ∈ collection w /\ Offer.discountPercentage o = PosInf
                    /\ n = Fin a /\ (a == 0)%Q).
Proof.
  intros Hn Hnan Hne.
  rewrite (getHighestDiscount_valid (Query.mk (Some amount) (Some bank) instrument) w
             n bank Hn Hnan eq_refl Hne).
  rewrite (getHighestDiscount_valid (Query.mk (Some amount) (Some bank) None) w
             n bank Hn Hnan eq_refl Hne).
  cbn [fst Query.paymentInstrument truthy].
  set (i := if truthy instrument then instrument else None).
  eexists _, _. split; [reflexivity |]. split; [reflexivity |]. split.
  - apply highestDiscountAmount_mono.
    intros o Ho. apply filter_In in Ho as [Ho Hm]. apply filter_In.
    split; [exact Ho | now apply (matches_without_instrument _ _ i)].
  - intros H. apply (highestDiscountAmount_NaN_cause n _ Hnan) in H
      as (o & a & Ho & Hp & Ha & H0).
    apply filter_In in Ho as [Ho _]. exists o, a. split; [now apply list_elem_of_In | auto].
Qed.

(** X15, at an amount that overflows to [Infinity]: with the instrument
    UPI nothing matches, without it the capped offer does. *)
Lemma instrument_never_raises_answer_witness :
  exists r r0,
    (getHighestDiscount Storage.reliable (Query.mk (Some "1e400") (Some "IDFC") (Some "UPI"))
                        (mkWorld [Samples.offerIdfc] [])).1
    = Ok (respond 200 (HighestDiscountAmount r))
    /\ (getHighestDiscount Storage.reliable (Query.mk (Some "1e400") (Some "IDFC") None)
                           (mkWorld [Samples.offerIdfc] [])).1
       = Ok (respond 200 (HighestDiscountAmount r0))
    /\ (JsNum.leb r r0 = true \/ r0 = NaN).
Proof.
  destruct (instrument_never_raises_answer (mkWorld [Samples.offerIdfc] []) "1e400" "IDFC"
              (Some "UPI") PosInf) as (r & r0 & Hr & Hr0 & Hle & _).
  - vm_compute. reflexivity.
  - discriminate.
  - discriminate.
  - exists r, r0. auto.
Defined.

(** X16.  Ingesting never lowers an answer: for an amount that is a number
    (the infinite ones included) and a bank name, the answer after any
    ingestion (whatever its outcome and the writes of others) is at least
    the answer before it, unless it is [NaN], which takes the amount 0 and
    a stored percentage [Infinity]. *)
Theorem ingestion_never_lowers_answer (req : IngestRequest) (others : list Offer.t)
    (w : world) (q : Query.t) (n : jsnum) (bank : string) :
  Number (Query.amountToPay q) = n ->
  n <> NaN ->
  Query.bankName q = Some bank ->
  bank <> "" ->
  exists before after,
    (getHighestDiscount Storage.reliable q w).1
    = Ok (respond 200 (HighestDiscountAmount before))
    /\ (getHighestDiscount Storage.reliable q
          (createOffers Storage.reliable req others w).2).1
       = Ok (respond 200 (HighestDiscountAmount after))
    /\ (JsNum.leb before after = true \/ after = NaN)
    /\ (after = NaN ->
        exists o a, o ∈ collection (createOffers Storage.reliable req others w).2
                    /\ Offer.discountPercentage o = PosInf
                    /\ n = Fin a /\ (a == 0)%Q).
Proof.
  intros Hn Hnan Hb Hne.
  rewrite (getHighestDiscount_valid q w n bank Hn Hnan Hb Hne).
  rewrite (getHighestDiscount_valid q _ n bank Hn Hnan Hb Hne).
  cbn [fst]. set (i := if truthy (Query.paymentInstrument q) then _ else _).
  eexists _, _. split; [reflexivity |]. split; [reflexivity |]. split.
  - apply highestDiscountAmount_mono.
    destruct (createOffers_collection_extends req others w) as [added ->].
    intros o Ho. apply filter_In in Ho as [Ho Hm]. apply filter_In.
    split; [apply in_or_app; now left | exact Hm].
  - intros H. apply (highestDiscountAmount_NaN_cause n _ Hnan) in H
      as (o & a & Ho & Hp & Ha & H0).
    apply filter_In in Ho as [Ho _]. exists o, a. split; [now apply list_elem_of_In | auto].
Qed.

(** X16, at an ingestion that stores an offer without cap and the amount
    ["Infinity"]: the answer goes from 0 to [Infinity]. *)
Lemma ingestion_never_lowers_answer_witness :
  exists before after,
    (getHighestDiscount Storage.reliable (Query.mk (Some "Infinity") (Some "IDFC") None)
       Samples.emptyWorld).1
    = Ok (respond 200 (HighestDiscountAmount before))
    /\ (getHighestDiscount Storage.reliable (Query.mk (Some "Infinity") (Some "IDFC") None)
          (createOffers Storage.reliable (Samples.request [Samples.adjNegative]) []
             Samples.emptyWorld).2).1
       = Ok (respond 200 (HighestDiscountAmount after))
    /\ (JsNum.leb before after = true \/ after = NaN).
Proof.
  destruct (ingestion_never_lowers_answer (Samples.request [Samples.adjNegative]) []
              Samples.emptyWorld (Query.mk (Some "Infinity") (Some "IDFC") None)
              PosInf "IDFC") as (before & after & Hb & Ha & Hle & _).
  - vm_compute. reflexivity.
  - discriminate.
  - reflexivity.
  - discriminate.
  - exists before, after. auto.
Defined.

(** X17.  Whatever the storage layer does, a query is answered and leaves
    the collection as it was: 400 when the amount is not a number or the
    bank name is missing, without a storage call; 200 with the highest
    discount among the offers the filter matches when the storage layer
    serves the find; 500 with its error when it rejects the find. *)
Theorem getHighestDiscount_outcomes (storage : Storage.t) (q : Query.t) (w : world) :
  let n := Number (Query.amountToPay q) in
  let instrument :=
    if truthy (Query.paymentInstrument q) then Query.paymentInstrument q else None in
  exists response w',
    getHighestDiscount storage q w = (Ok response, w')
    /\ collection w' = collection w
    /\ ((response = invalidQuery /\ w' = w
         /\ (n = NaN \/ truthy (Query.bankName q) = false))
        \/ (exists bank,
              Query.bankName q = Some bank /\ bank <> "" /\ n <> NaN
              /\ calls w' = calls w ++ [OpFindQuery bank n instrument]
              /\ match storage (OpFindQuery bank n instrument) with
                 | None =>
                     response
                     = respond 200 (HighestDiscountAmount
                         (highestDiscountAmount n
                            (List.filter (Store.matches bank n instrument) (collection w))))
                 | Some fault =>
                     response
                     = respond 500 (QueryFailure "Error calculating highest discount"
                                      (StorageError (Storage.message fault)))
                 end)).
Proof.
  intros n instrument.
  destruct (JsNum.isNaN n) eqn:Hn.
  { assert (n = NaN) as Hnan by now destruct n.
    rewrite getHighestDiscount_invalid by now left.
    eexists _, _. split; [reflexivity |]. split; [reflexivity |]. left. auto. }
  destruct (truthy (Query.bankName q)) eqn:Hb.
  2:{ rewrite getHighestDiscount_invalid by now right.
      eexists _, _. split; [reflexivity |]. split; [reflexivity |]. left. auto. }
  apply truthy_Some in Hb as (bank & Hb & Hne).
  assert (n <> NaN) as Hnan by (intros H; now rewrite H in Hn).
  unfold getHighestDiscount, Handler.tryCatch, Handler.bind, Handler.ret, Store.findQuery.
  fold n. rewrite Hn, Hb. cbn [truthy orb]. rewrite (proj2 (String.eqb_neq bank "") Hne).
  cbn [negb]. fold instrument.
  destruct (storage (OpFindQuery bank n instrument)) as [fault|] eqn:Hs;
    (eexists _, _; split; [reflexivity |]; split; [reflexivity |]; right;
     exists bank; rewrite Hs; auto).
Qed.

(** A query whose find is rejected. *)
Example getHighestDiscount_storage_fault :
  getHighestDiscount (fun _ => Some (Storage.mkFault "timed out" 0))
    (Query.mk (Some "10000") (Some "IDFC") None) (mkWorld [Samples.offerIdfc] [])
  = (Ok (respond 500 (QueryFailure "Error calculating highest discount"
                        (StorageError "timed out"))),
     mkWorld [Samples.offerIdfc] [OpFindQuery "IDFC" (Fin 10000) None]).
Proof. vm_compute. reflexivity. Qed.
